(** * AlphaAHB V5 execution core: a shallow embedding and its properties

    The development follows the C sources of the repository:
    - [examples/cpu-implementation.c]: instruction word, register file,
      decoder, integer / floating-point / vector execution units and the
      dispatcher [cpu_execute_instruction];
    - [examples/vector-operations.c]: the 16 x 32-bit lane operations
      [vector_add_int32] and [vector_mul_int32];
    - [examples/neural-network.c]: the dense layer forward pass.

    Fixed-width C integers are integers of [Z] with the wrap-around written
    out; C arrays are lists read with [!!] and updated in place with
    [<[i:=v]>]; functions that write through a pointer return the new value
    of the object next to their status. *)

From Stdlib Require Import ZArith Lia List Bool String DecimalString.
From Stdlib Require Import Floats.SpecFloat.
From stdpp Require Import base list.

Local Open Scope Z_scope.

(** ** Fixed-width integers *)

Module CInt.

(** Conversion to [uintN_t]: reduction modulo [2^N]. *)
Definition to_uint (bits : Z) (x : Z) : Z := x mod 2 ^ bits.

(** Conversion to [intN_t]: the two's-complement reading of the low [N]
    bits (what the supported targets do on a narrowing conversion and on
    signed wrap-around). *)
Definition to_int (bits : Z) (x : Z) : Z :=
  let u := to_uint bits x in
  if u <? 2 ^ (bits - 1) then u else u - 2 ^ bits.

Definition to_uint8 := to_uint 8.
Definition to_uint32 := to_uint 32.
Definition to_uint64 := to_uint 64.
Definition to_int16 := to_int 16.
Definition to_int32 := to_int 32.
Definition to_int64 := to_int 64.

Definition INT32_MAX : Z := 2147483647.
Definition INT32_MIN : Z := -2147483648.

Definition in_uint (bits x : Z) : Prop := 0 <= x < 2 ^ bits.
Definition in_int32 (x : Z) : Prop := INT32_MIN <= x <= INT32_MAX.

(** [for (i = 0; i < n; i++) body] threading the state [s]. *)
Definition for_range {S : Type} (n : nat) (body : nat -> S -> S) (s : S) : S :=
  fold_left (fun st i => body i st) (seq 0 n) s.

End CInt.
Import CInt.

(** ** Instruction word and decoder ([cpu-implementation.c]) *)

(** [instruction_t]: six bit-fields; each field is kept as the unsigned
    value it holds. *)
Record instruction_t := mk_instruction {
  opcode : Z;     (* 4 bits, bits 63-60 *)
  funct : Z;      (* 4 bits, bits 59-56 *)
  rs2 : Z;        (* 4 bits, bits 55-52 *)
  rs1 : Z;        (* 4 bits, bits 51-48 *)
  imm : Z;        (* 16 bits, bits 47-32 *)
  extended : Z    (* 32 bits, bits 31-0 *)
}.

(** The values a C object of type [instruction_t] can hold: every field
    within its declared width. *)
Definition wf_instruction (inst : instruction_t) : Prop :=
  in_uint 4 (opcode inst) /\ in_uint 4 (funct inst) /\
  in_uint 4 (rs2 inst) /\ in_uint 4 (rs1 inst) /\
  in_uint 16 (imm inst) /\ in_uint 32 (extended inst).

(** The 64-bit word of an instruction, sliced at the bit positions the
    comments of [instruction_t] give. *)
Definition bit_field (w lo width : Z) : Z := Z.land (Z.shiftr w lo) (Z.ones width).

Definition instruction_of_word (w : Z) : instruction_t :=
  {| opcode := bit_field w 60 4;
     funct := bit_field w 56 4;
     rs2 := bit_field w 52 4;
     rs1 := bit_field w 48 4;
     imm := bit_field w 32 16;
     extended := bit_field w 0 32 |}.

Inductive instruction_type_t :=
  | INST_ADD | INST_SUB | INST_MUL | INST_DIV | INST_MOD
  | INST_AND | INST_OR | INST_XOR | INST_NOT
  | INST_SHL | INST_SHR | INST_ROT
  | INST_CMP | INST_TEST
  | INST_CLZ | INST_CTZ | INST_POPCNT
  | INST_LOAD | INST_STORE
  | INST_BEQ | INST_BNE | INST_BLT | INST_BLE | INST_BGT | INST_BGE
  | INST_FADD | INST_FSUB | INST_FMUL | INST_FDIV | INST_FSQRT
  | INST_VADD | INST_VSUB | INST_VMUL | INST_VDIV
  | INST_CONV | INST_RELU | INST_SOFTMAX
  | INST_BARRIER | INST_LOCK | INST_UNLOCK | INST_ATOMIC
  | INST_SYSCALL | INST_RET | INST_NOP.

(** [cpu_decode_instruction(inst, type)]: the second argument is the value
    [*type] holds on entry; the result is the returned status and the value
    of [*type] on exit.  A [return -1] leaves [*type] as it was. *)
Definition cpu_decode_instruction (inst : instruction_t)
    (type : instruction_type_t) : Z * instruction_type_t :=
  match opcode inst with
  | 0x0 => (* R-Type *)
      match funct inst with
      | 0x0 => (0, INST_ADD)
      | 0x1 => (0, INST_SUB)
      | 0x2 => (0, INST_MUL)
      | 0x3 => (0, INST_DIV)
      | 0x4 => (0, INST_MOD)
      | 0x5 => (0, INST_AND)
      | 0x6 => (0, INST_OR)
      | 0x7 => (0, INST_XOR)
      | 0x8 => (0, INST_SHL)
      | 0x9 => (0, INST_SHR)
      | 0xA => (0, INST_ROT)
      | 0xB => (0, INST_CMP)
      | 0xC => (0, INST_CLZ)
      | 0xD => (0, INST_CTZ)
      | 0xE => (0, INST_POPCNT)
      | _ => (-1, type)
      end
  | 0x1 => (* I-Type *)
      match funct inst with
      | 0x9 => (0, INST_LOAD)
      | _ => (-1, type)
      end
  | 0x2 => (* S-Type *)
      match funct inst with
      | 0x0 => (0, INST_STORE)
      | _ => (-1, type)
      end
  | 0x3 => (* B-Type *)
      match funct inst with
      | 0x0 => (0, INST_BEQ)
      | 0x1 => (0, INST_BNE)
      | 0x2 => (0, INST_BLT)
      | 0x3 => (0, INST_BLE)
      | 0x4 => (0, INST_BGT)
      | 0x5 => (0, INST_BGE)
      | _ => (-1, type)
      end
  | 0x8 => (* F-Type *)
      match funct inst with
      | 0x0 => (0, INST_FADD)
      | 0x1 => (0, INST_FSUB)
      | 0x2 => (0, INST_FMUL)
      | 0x3 => (0, INST_FDIV)
      | 0x4 => (0, INST_FSQRT)
      | _ => (-1, type)
      end
  | 0x6 => (* V-Type *)
      match funct inst with
      | 0x0 => (0, INST_VADD)
      | 0x1 => (0, INST_VSUB)
      | 0x2 => (0, INST_VMUL)
      | 0x3 => (0, INST_VDIV)
      | _ => (-1, type)
      end
  | 0x9 => (* A-Type *)
      match funct inst with
      | 0x0 => (0, INST_CONV)
      | 0x2 => (0, INST_RELU)
      | 0x5 => (0, INST_SOFTMAX)
      | _ => (-1, type)
      end
  | 0x7 => (* M-Type *)
      match funct inst with
      | 0x0 => (0, INST_BARRIER)
      | 0x1 => (0, INST_LOCK)
      | 0x2 => (0, INST_UNLOCK)
      | 0x3 => (0, INST_ATOMIC)
      | _ => (-1, type)
      end
  | _ => (-1, type)
  end.

(** The decode table as data: one row per (opcode, funct) pair the
    instruction set documents, in the order of the families R, I, S, B, F,
    V, A, M. *)
Definition decode_table : list ((Z * Z) * instruction_type_t) :=
  [ ((0x0, 0x0), INST_ADD); ((0x0, 0x1), INST_SUB); ((0x0, 0x2), INST_MUL);
    ((0x0, 0x3), INST_DIV); ((0x0, 0x4), INST_MOD); ((0x0, 0x5), INST_AND);
    ((0x0, 0x6), INST_OR); ((0x0, 0x7), INST_XOR); ((0x0, 0x8), INST_SHL);
    ((0x0, 0x9), INST_SHR); ((0x0, 0xA), INST_ROT); ((0x0, 0xB), INST_CMP);
    ((0x0, 0xC), INST_CLZ); ((0x0, 0xD), INST_CTZ); ((0x0, 0xE), INST_POPCNT);
    ((0x1, 0x9), INST_LOAD);
    ((0x2, 0x0), INST_STORE);
    ((0x3, 0x0), INST_BEQ); ((0x3, 0x1), INST_BNE); ((0x3, 0x2), INST_BLT);
    ((0x3, 0x3), INST_BLE); ((0x3, 0x4), INST_BGT); ((0x3, 0x5), INST_BGE);
    ((0x8, 0x0), INST_FADD); ((0x8, 0x1), INST_FSUB); ((0x8, 0x2), INST_FMUL);
    ((0x8, 0x3), INST_FDIV); ((0x8, 0x4), INST_FSQRT);
    ((0x6, 0x0), INST_VADD); ((0x6, 0x1), INST_VSUB); ((0x6, 0x2), INST_VMUL);
    ((0x6, 0x3), INST_VDIV);
    ((0x9, 0x0), INST_CONV); ((0x9, 0x2), INST_RELU); ((0x9, 0x5), INST_SOFTMAX);
    ((0x7, 0x0), INST_BARRIER); ((0x7, 0x1), INST_LOCK);
    ((0x7, 0x2), INST_UNLOCK); ((0x7, 0x3), INST_ATOMIC) ].

Fixpoint table_lookup (op fn : Z) (t : list ((Z * Z) * instruction_type_t))
    : option instruction_type_t :=
  match t with
  | [] => None
  | ((o, f), k) :: t' =>
      if (o =? op) && (f =? fn) then Some k else table_lookup op fn t'
  end.

(** ** Register file and core ([cpu-implementation.c]) *)

(** Single-precision values: IEEE-754 binary32 as [spec_float] with 24 bits
    of precision and maximal exponent 128, operations rounded to nearest
    even (the default mode of the C environment). *)
Definition float : Type := spec_float.
Definition prec32 : Z := 24.
Definition emax32 : Z := 128.
Definition fzero : float := S754_zero false.

Record register_file_t := mk_register_file {
  gpr : list Z;              (* uint64_t gpr[64] *)
  fpr : list float;          (* float fpr[64] *)
  vector : list (list Z);    (* uint8_t vector[32][64] *)
  pc : Z;
  sp : Z;
  fp : Z;
  lr : Z;
  flags : Z
}.

Record cache_line_t := mk_cache_line {
  tag : Z;
  line_data : list Z;        (* uint8_t data[64] *)
  valid : Z;
  dirty : Z;
  lru : Z
}.

Record cache_t := mk_cache {
  lines : list cache_line_t;
  size : Z;
  associativity : Z;
  line_size : Z;
  sets : Z
}.

Record cpu_core_t := mk_cpu_core {
  core_id : Z;
  thread_id : Z;
  regs : register_file_t;
  l1i : cache_t;
  l1d : cache_t;
  l2 : cache_t;
  l3 : cache_t;
  pipeline : list Z;             (* uint8_t pipeline[12] *)
  pipeline_stage : Z;
  branch_predictor : list Z;     (* int branch_predictor[1024] *)
  performance_counters : list Z  (* int performance_counters[8] *)
}.

(** The values the array types allow: 64 general registers of 64 bits, 64
    floating-point registers, 32 vector registers of 64 bytes, 64-bit
    special registers. *)
Definition wf_register_file (r : register_file_t) : Prop :=
  length (gpr r) = 64%nat /\ Forall (in_uint 64) (gpr r) /\
  length (fpr r) = 64%nat /\
  length (vector r) = 32%nat /\
  Forall (fun v => length v = 64%nat /\ Forall (in_uint 8) v) (vector r) /\
  in_uint 64 (pc r) /\ in_uint 64 (sp r) /\ in_uint 64 (fp r) /\
  in_uint 64 (lr r) /\ in_uint 64 (flags r).

(** Array reads and writes.  A register index is a 4-bit field, so it is
    always inside the arrays of a well-formed register file; outside of them
    (which C leaves undefined) a read gives the zero of the type and a write
    does nothing. *)
Definition gpr_read (r : register_file_t) (i : Z) : Z :=
  default 0 (gpr r !! Z.to_nat i).
Definition fpr_read (r : register_file_t) (i : Z) : float :=
  default fzero (fpr r !! Z.to_nat i).
Definition vector_read (r : register_file_t) (v : Z) (i : nat) : Z :=
  default 0 (default [] (vector r !! Z.to_nat v) !! i).

(** Number of bytes of vector register [v]. *)
Definition row_length (r : register_file_t) (v : Z) : nat :=
  length (default [] (vector r !! Z.to_nat v)).

Definition set_gpr (r : register_file_t) (i : Z) (x : Z) : register_file_t :=
  mk_register_file (<[Z.to_nat i := x]> (gpr r)) (fpr r) (vector r)
    (pc r) (sp r) (fp r) (lr r) (flags r).
Definition set_fpr (r : register_file_t) (i : Z) (x : float) : register_file_t :=
  mk_register_file (gpr r) (<[Z.to_nat i := x]> (fpr r)) (vector r)
    (pc r) (sp r) (fp r) (lr r) (flags r).
Definition set_vector_byte (r : register_file_t) (v : Z) (i : nat) (x : Z)
    : register_file_t :=
  mk_register_file (gpr r) (fpr r)
    (alter (fun bytes => <[i := x]> bytes) (Z.to_nat v) (vector r))
    (pc r) (sp r) (fp r) (lr r) (flags r).
Definition set_flags (r : register_file_t) (x : Z) : register_file_t :=
  mk_register_file (gpr r) (fpr r) (vector r) (pc r) (sp r) (fp r) (lr r) x.
Definition set_pc (r : register_file_t) (x : Z) : register_file_t :=
  mk_register_file (gpr r) (fpr r) (vector r) x (sp r) (fp r) (lr r) (flags r).

Definition set_regs (c : cpu_core_t) (r : register_file_t) : cpu_core_t :=
  mk_cpu_core (core_id c) (thread_id c) r (l1i c) (l1d c) (l2 c) (l3 c)
    (pipeline c) (pipeline_stage c) (branch_predictor c)
    (performance_counters c).

(** FLAGS bits. *)
Definition FLAG_ZERO : Z := 0x01.
Definition FLAG_SIGN : Z := 0x02.
Definition zero_flag (r : register_file_t) : bool := Z.testbit (flags r) 0.
Definition sign_flag (r : register_file_t) : bool := Z.testbit (flags r) 1.

(** [cpu_fetch_instruction]: fabricates [ADD R1, R2] and advances PC by the
    instruction width. *)
Definition cpu_fetch_instruction (core : cpu_core_t) (address : Z)
    : Z * cpu_core_t * instruction_t :=
  (0, set_regs core (set_pc (regs core) (to_uint64 (pc (regs core) + 8))),
   mk_instruction 0x0 0x0 0x2 0x1 0x0 0x0).

(** ** Integer execution unit *)

(** The value [result] takes in the [switch] of [cpu_execute_arithmetic];
    [None] stands for the [return -1] exits (division by zero, unknown
    funct).  ROT with a masked amount of zero evaluates [rs1_val >> 64], a
    shift by the full width, taken here as the mathematical shift; see
    [rot_full_width_shift_irrelevant] for the other usual outcome. *)
Definition arithmetic_result (fn rs1_val rs2_val : Z) : option Z :=
  match fn with
  | 0x0 => Some (to_uint64 (rs1_val + rs2_val))
  | 0x1 => Some (to_uint64 (rs1_val - rs2_val))
  | 0x2 => Some (to_uint64 (rs1_val * rs2_val))
  | 0x3 => if negb (rs2_val =? 0) then Some (rs1_val / rs2_val) else None
  | 0x4 => if negb (rs2_val =? 0) then Some (rs1_val mod rs2_val) else None
  | 0x5 => Some (Z.land rs1_val rs2_val)
  | 0x6 => Some (Z.lor rs1_val rs2_val)
  | 0x7 => Some (Z.lxor rs1_val rs2_val)
  | 0x8 => Some (to_uint64 (Z.shiftl rs1_val (Z.land rs2_val 0x3F)))
  | 0x9 => Some (Z.shiftr rs1_val (Z.land rs2_val 0x3F))
  | 0xA => Some (Z.lor (to_uint64 (Z.shiftl rs1_val (Z.land rs2_val 0x3F)))
                       (Z.shiftr rs1_val (64 - Z.land rs2_val 0x3F)))
  | _ => None
  end.

(** The flag update that follows the register write. *)
Definition update_flags (fl result : Z) : Z :=
  let fl1 :=
    if result =? 0 then Z.lor fl FLAG_ZERO
    else Z.land fl (to_uint64 (Z.lnot FLAG_ZERO)) in
  if negb (Z.land result 0x8000000000000000 =? 0) then Z.lor fl1 FLAG_SIGN
  else Z.land fl1 (to_uint64 (Z.lnot FLAG_SIGN)).

Definition cpu_execute_arithmetic (core : cpu_core_t) (inst : instruction_t)
    : Z * cpu_core_t :=
  let rs1_val := gpr_read (regs core) (rs1 inst) in
  let rs2_val := gpr_read (regs core) (rs2 inst) in
  match arithmetic_result (funct inst) rs1_val rs2_val with
  | None => (-1, core)
  | Some result =>
      let r1 := set_gpr (regs core) (rs1 inst) result in
      let r2 := set_flags r1 (update_flags (flags r1) result) in
      (0, set_regs core r2)
  end.

(** ** Floating-point execution unit *)

Definition float_result (fn : Z) (rs1_val rs2_val : float) : option float :=
  match fn with
  | 0x0 => Some (SFadd prec32 emax32 rs1_val rs2_val)
  | 0x1 => Some (SFsub prec32 emax32 rs1_val rs2_val)
  | 0x2 => Some (SFmul prec32 emax32 rs1_val rs2_val)
  | 0x3 =>
      if negb (SFeqb rs2_val fzero)
      then Some (SFdiv prec32 emax32 rs1_val rs2_val)
      else None
  | 0x4 =>
      if SFleb fzero rs1_val
      then Some (SFsqrt prec32 emax32 rs1_val)
      else None
  | _ => None
  end.

Definition cpu_execute_floating_point (core : cpu_core_t) (inst : instruction_t)
    : Z * cpu_core_t :=
  let rs1_val := fpr_read (regs core) (rs1 inst) in
  let rs2_val := fpr_read (regs core) (rs2 inst) in
  match float_result (funct inst) rs1_val rs2_val with
  | None => (-1, core)
  | Some result => (0, set_regs core (set_fpr (regs core) (rs1 inst) result))
  end.

(** ** Vector execution unit of the core *)

(** One iteration [vd[i] = op(v1[i], v2[i])] of the byte loops, with
    [v1 = vd = vector[rs1]] and [v2 = vector[rs2]] read from the register
    file as it stands (the three pointers may alias). *)
Definition vector_byte_step (op : Z -> Z -> Z) (inst : instruction_t)
    (i : nat) (r : register_file_t) : register_file_t :=
  set_vector_byte r (rs1 inst) i
    (op (vector_read r (rs1 inst) i) (vector_read r (rs2 inst) i)).

Definition cpu_execute_vector (core : cpu_core_t) (inst : instruction_t)
    : Z * cpu_core_t :=
  let loop op := (0, set_regs core
                       (for_range 64 (vector_byte_step op inst) (regs core))) in
  match funct inst with
  | 0x0 => loop (fun a b => to_uint8 (a + b))
  | 0x1 => loop (fun a b => to_uint8 (a - b))
  | 0x2 => loop (fun a b => to_uint8 (a * b))
  | 0x3 => loop (fun a b => if negb (b =? 0) then to_uint8 (a / b) else 0)
  | _ => (-1, core)
  end.

(** ** AI/ML and MIMD units of the core, and the dispatcher *)

(** Standard output is a list of printed lines (without the newline). *)
Definition string_of_int (z : Z) : string :=
  DecimalString.NilZero.string_of_int (Z.to_int z).

Definition cpu_execute_ai_ml (core : cpu_core_t) (inst : instruction_t)
    : Z * list string :=
  match funct inst with
  | 0x0 => (0, ["Executing convolution operation"%string])
  | 0x2 => (0, ["Executing ReLU activation"%string])
  | 0x5 => (0, ["Executing softmax activation"%string])
  | _ => (-1, [])
  end.

Definition core_line (core : cpu_core_t) (msg : string) : string :=
  String.append "Core "
    (String.append (string_of_int (core_id core)) (String.append ": " msg)).

Definition cpu_execute_mimd (core : cpu_core_t) (inst : instruction_t)
    : Z * list string :=
  match funct inst with
  | 0x0 => (0, [core_line core "Barrier synchronization"])
  | 0x1 => (0, [core_line core "Acquiring lock"])
  | 0x2 => (0, [core_line core "Releasing lock"])
  | 0x3 => (0, [core_line core "Atomic operation"])
  | _ => (-1, [])
  end.

(** [cpu_execute_instruction]: [uninit] is the indeterminate value of the
    local [type] before the decoder writes it.  The result is the status,
    the core afterwards and the lines printed. *)
Definition cpu_execute_instruction (uninit : instruction_type_t)
    (core : cpu_core_t) (inst : instruction_t) : Z * cpu_core_t * list string :=
  let '(status, type) := cpu_decode_instruction inst uninit in
  if negb (status =? 0) then (-1, core, [])
  else
    match type with
    | INST_ADD | INST_SUB | INST_MUL | INST_DIV | INST_MOD
    | INST_AND | INST_OR | INST_XOR
    | INST_SHL | INST_SHR | INST_ROT =>
        let '(st, core') := cpu_execute_arithmetic core inst in (st, core', [])
    | INST_FADD | INST_FSUB | INST_FMUL | INST_FDIV | INST_FSQRT =>
        let '(st, core') := cpu_execute_floating_point core inst in
        (st, core', [])
    | INST_VADD | INST_VSUB | INST_VMUL | INST_VDIV =>
        let '(st, core') := cpu_execute_vector core inst in (st, core', [])
    | INST_CONV | INST_RELU | INST_SOFTMAX =>
        let '(st, out) := cpu_execute_ai_ml core inst in (st, core, out)
    | INST_BARRIER | INST_LOCK | INST_UNLOCK | INST_ATOMIC =>
        let '(st, out) := cpu_execute_mimd core inst in (st, core, out)
    | _ => (-1, core, [])
    end.

(** ** Lane operations on 512-bit vectors ([vector-operations.c]) *)

Module VectorOps.

Record alpha_ahb_vector_t := mk_vector {
  data : list Z                 (* uint8_t data[64] *)
}.

Record vector_result_t := mk_vector_result {
  result : alpha_ahb_vector_t;
  flags : Z;                    (* uint32_t *)
  cycles : Z                    (* uint32_t *)
}.

(** [memcpy] of a 4-byte object out of and into a byte array, on the
    little-endian targets the examples run on. *)
Definition byte_at (d : list Z) (k : nat) : Z := default 0 (d !! k).

Definition load_le32 (d : list Z) (off : nat) : Z :=
  byte_at d off + byte_at d (off + 1) * 2 ^ 8 +
  byte_at d (off + 2) * 2 ^ 16 + byte_at d (off + 3) * 2 ^ 24.

Definition store_le32 (d : list Z) (off : nat) (x : Z) : list Z :=
  let u := to_uint32 x in
  <[(off + 3)%nat := to_uint8 (Z.shiftr u 24)]>
    (<[(off + 2)%nat := to_uint8 (Z.shiftr u 16)]>
       (<[(off + 1)%nat := to_uint8 (Z.shiftr u 8)]>
          (<[off := to_uint8 u]> d))).

(** [memcpy(&val, &v->data[i * 4], sizeof(int32_t))] *)
Definition read_int32 (v : alpha_ahb_vector_t) (i : nat) : Z :=
  to_int32 (load_le32 (data v) (i * 4)).

(** [memcpy(&v.data[i * 4], &val, sizeof(int32_t))] *)
Definition write_int32 (v : alpha_ahb_vector_t) (i : nat) (x : Z)
    : alpha_ahb_vector_t :=
  mk_vector (store_le32 (data v) (i * 4) x).

Definition vector_init_zero : alpha_ahb_vector_t := mk_vector (replicate 64 0).

Definition vector_init_int32_array (array : list Z) (count : Z)
    : alpha_ahb_vector_t :=
  let elements := if count <? 16 then count else 16 in
  for_range (Z.to_nat elements)
    (fun k vec => write_int32 vec k (default 0 (array !! k)))
    vector_init_zero.

(** [vector_extract_int32_array(vec, array, count)]: the contents of
    [array] afterwards. *)
Definition vector_extract_int32_array (vec : alpha_ahb_vector_t)
    (array : list Z) (count : Z) : list Z :=
  let elements := Z.to_nat (if count <? 16 then count else 16) in
  map (read_int32 vec) (seq 0 elements) ++ drop elements array.

Definition set_result (r : vector_result_t) (v : alpha_ahb_vector_t)
    : vector_result_t :=
  mk_vector_result v (flags r) (cycles r).
Definition set_flags (r : vector_result_t) (x : Z) : vector_result_t :=
  mk_vector_result (result r) x (cycles r).

(** Loop body of [vector_add_int32].  The sum of two [int32_t] is taken
    with two's-complement wrap-around. *)
Definition add_lane (a b : alpha_ahb_vector_t) (i : nat) (r : vector_result_t)
    : vector_result_t :=
  let val_a := read_int32 a i in
  let val_b := read_int32 b i in
  let val_result := to_int32 (val_a + val_b) in
  let r1 := set_result r (write_int32 (result r) i val_result) in
  if ((val_a >? 0) && (val_b >? 0) && (val_result <? 0)) ||
     ((val_a <? 0) && (val_b <? 0) && (val_result >? 0))
  then set_flags r1 (Z.lor (flags r1) (Z.shiftl 1 (Z.of_nat i)))
  else r1.

(** [vector_add_int32(a, b)]; [uninit] is the indeterminate content of the
    local [result] on entry. *)
Definition vector_add_int32 (uninit : vector_result_t)
    (a b : alpha_ahb_vector_t) : vector_result_t :=
  for_range 16 (add_lane a b) (mk_vector_result (result uninit) 0 2).

(** Loop body of [vector_mul_int32]: the product is an [int64_t]. *)
Definition mul_lane (a b : alpha_ahb_vector_t) (i : nat) (r : vector_result_t)
    : vector_result_t :=
  let val_a := read_int32 a i in
  let val_b := read_int32 b i in
  let val_result := to_int64 (val_a * val_b) in
  let '(r1, val_result) :=
    if (val_result >? INT32_MAX) || (val_result <? INT32_MIN)
    then (set_flags r (Z.lor (flags r) (Z.shiftl 1 (Z.of_nat i))),
          if val_result >? 0 then INT32_MAX else INT32_MIN)
    else (r, val_result) in
  let val_result_32 := to_int32 val_result in
  set_result r1 (write_int32 (result r1) i val_result_32).

Definition vector_mul_int32 (uninit : vector_result_t)
    (a b : alpha_ahb_vector_t) : vector_result_t :=
  for_range 16 (mul_lane a b) (mk_vector_result (result uninit) 0 4).

(** The sixteen lanes of a vector, as [vector_extract_int32_array] reads
    them. *)
Definition lanes (v : alpha_ahb_vector_t) : list Z :=
  map (read_int32 v) (seq 0 16).

(** The test vectors of [main]. *)
Definition array_a : list Z :=
  [1; 2; 3; 4; 5; 6; 7; 8; 9; 10; 11; 12; 13; 14; 15; 16].
Definition array_b : list Z :=
  [2; 4; 6; 8; 10; 12; 14; 16; 18; 20; 22; 24; 26; 28; 30; 32].
Definition vec_a : alpha_ahb_vector_t := vector_init_int32_array array_a 16.
Definition vec_b : alpha_ahb_vector_t := vector_init_int32_array array_b 16.

(** A vector holding one value in lane 0, zero elsewhere. *)
Definition lane0 (x : Z) : alpha_ahb_vector_t := vector_init_int32_array [x] 1.

(** A result object whose bytes are all zero before the call. *)
Definition zero_result : vector_result_t :=
  mk_vector_result vector_init_zero 0 0.

(** Loop body of [vector_cmp_int32]. *)
Definition cmp_lane (a b : alpha_ahb_vector_t) (i : nat) (r : vector_result_t)
    : vector_result_t :=
  let val_a := read_int32 a i in
  let val_b := read_int32 b i in
  let val_result := if val_a >? val_b then 1 else 0 in
  set_result r (write_int32 (result r) i val_result).

Definition vector_cmp_int32 (uninit : vector_result_t)
    (a b : alpha_ahb_vector_t) : vector_result_t :=
  for_range 16 (cmp_lane a b) (mk_vector_result (result uninit) 0 1).

End VectorOps.

(** ** Dense layer of the neural processing unit ([neural-network.c]) *)

Module Npu.

Definition NPU_PE_COUNT : Z := 1024.

Inductive activation_type_t :=
  | ACTIVATION_RELU | ACTIVATION_SIGMOID | ACTIVATION_TANH
  | ACTIVATION_SOFTMAX | ACTIVATION_LEAKY_RELU.

Inductive layer_type_t :=
  | LAYER_DENSE | LAYER_CONV2D | LAYER_MAXPOOL2D | LAYER_AVGPOOL2D
  | LAYER_DROPOUT | LAYER_BATCHNORM.

(** [npu_layer_t]; [weights] and [biases] are the arrays the pointers
    address ([int8_t] and [int16_t] elements). *)
Record npu_layer_t := mk_layer {
  type : layer_type_t;
  input_size : Z;
  output_size : Z;
  kernel_size : Z;
  stride : Z;
  padding : Z;
  activation : activation_type_t;
  weights : list Z;
  biases : list Z;
  dropout_rate : float;
  learning_rate : float
}.

(** [npu_pe_t]; the fields [weight], [activation], [accumulator] and
    [active] carry the prefix [pe_]. *)
Record npu_pe_t := mk_pe {
  pe_id : Z;
  pe_weight : Z;
  pe_activation : Z;
  pe_accumulator : Z;
  pe_active : bool
}.

(** [npu_controller_t], without the pointer to the current model, which
    the forward pass never follows. *)
Record npu_controller_t := mk_controller {
  processing_elements : list npu_pe_t;
  current_layer : Z;
  training_mode : bool;
  global_learning_rate : float
}.

Definition set_processing_elements (npu : npu_controller_t)
    (pes : list npu_pe_t) : npu_controller_t :=
  mk_controller pes (current_layer npu) (training_mode npu)
    (global_learning_rate npu).

(** [for (i = 0; cond(i); i++) body], for a condition that fails no later
    than at [i = fuel]. *)
Fixpoint for_while {S : Type} (fuel : nat) (cond : Z -> bool)
    (body : Z -> S -> S) (i : Z) (s : S) : S :=
  match fuel with
  | O => s
  | Datatypes.S fuel' =>
      if cond i then for_while fuel' cond body (i + 1) (body i s) else s
  end.

Section Forward.

(** The floating-point cores of the sigmoid and tanh activations,
    [(npu_activation_t)(1 / (1 + expf(-x / 32768)) * 32767)] and
    [(npu_activation_t)(tanhf(x / 32768) * 32767)], as functions of the
    16-bit argument. *)
Variable sigmoid_fixed : Z -> Z.
Variable tanh_fixed : Z -> Z.

Definition npu_activation_relu (x : Z) : Z := if x >? 0 then x else 0.

Definition npu_activation_sigmoid (x : Z) : Z :=
  if x <? -8 then 0 else if x >? 8 then 32767 else sigmoid_fixed x.

Definition npu_activation_tanh (x : Z) : Z :=
  if x <? -8 then -32767 else if x >? 8 then 32767 else tanh_fixed x.

Definition npu_activation_leaky_relu (x : Z) : Z :=
  if x >? 0 then x else Z.quot x 10.

Definition npu_apply_activation (x : Z) (act : activation_type_t) : Z :=
  match act with
  | ACTIVATION_RELU => npu_activation_relu x
  | ACTIVATION_SIGMOID => npu_activation_sigmoid x
  | ACTIVATION_TANH => npu_activation_tanh x
  | ACTIVATION_LEAKY_RELU => npu_activation_leaky_relu x
  | _ => x
  end.

(** Body of the reset loop. *)
Definition reset_pe (pe : npu_pe_t) : npu_pe_t :=
  mk_pe (pe_id pe) (pe_weight pe) (pe_activation pe) 0 false.

(** Body of the loop over the processing elements of one output neuron;
    the state is the PE array and the running [sum]. *)
Definition pe_step (layer : npu_layer_t) (input : list Z)
    (pe_per_output out_idx pe_idx : Z) (st : list npu_pe_t * Z)
    : list npu_pe_t * Z :=
  let '(pes, sum) := st in
  let id := to_uint32 (out_idx * pe_per_output + pe_idx) mod NPU_PE_COUNT in
  let input_idx := pe_idx in
  if input_idx <? input_size layer then
    let w :=
      default 0
        (weights layer !!
           Z.to_nat (to_uint32 (out_idx * input_size layer + input_idx))) in
    let x := default 0 (input !! Z.to_nat input_idx) in
    let acc := to_int32 (w * x) in
    (alter (fun pe => mk_pe (pe_id pe) w x acc true) (Z.to_nat id) pes,
     to_int32 (sum + acc))
  else st.

(** Body of the loop over the output neurons; the state is the PE array and
    the [output] buffer. *)
Definition output_step (layer : npu_layer_t) (input : list Z)
    (pe_per_output : Z) (out_idx : nat) (st : list npu_pe_t * list Z)
    : list npu_pe_t * list Z :=
  let '(pes, output) := st in
  let '(pes', sum) :=
    for_while (Z.to_nat pe_per_output)
      (fun pe_idx => (pe_idx <? pe_per_output) && (pe_idx <? input_size layer))
      (pe_step layer input pe_per_output (Z.of_nat out_idx)) 0 (pes, 0) in
  let sum := to_int32 (sum + default 0 (biases layer !! out_idx)) in
  (pes', <[out_idx := npu_apply_activation (to_int16 sum) (activation layer)]>
           output).

(** [npu_dense_forward(npu, layer, input, output)]: the controller and the
    [output] buffer afterwards (the two progress lines it prints are left
    out).  [NPU_PE_COUNT / layer->output_size] traps for an empty output
    layer: [None]. *)
Definition npu_dense_forward (npu : npu_controller_t) (layer : npu_layer_t)
    (input output : list Z) : option (npu_controller_t * list Z) :=
  let pes := for_range (Z.to_nat NPU_PE_COUNT) (fun i => alter reset_pe i)
               (processing_elements npu) in
  if output_size layer =? 0 then None
  else
    let pe_per_output := NPU_PE_COUNT / output_size layer in
    let pe_per_output := if pe_per_output =? 0 then 1 else pe_per_output in
    let '(pes', output') :=
      for_range (Z.to_nat (output_size layer))
        (output_step layer input pe_per_output) (pes, output) in
    Some (set_processing_elements npu pes', output').

End Forward.

(** The sum of the first [m] products of output neuron [j], plus its bias,
    accumulated in the 32-bit accumulator.  Weights are laid out as the
    layer stores them, one row of [input_size] weights per output neuron. *)
Definition dense_sum_first (m : nat) (layer : npu_layer_t) (input : list Z)
    (j : nat) : Z :=
  to_int32
    (fold_left
       (fun acc i =>
          to_int32
            (acc +
             to_int32
               (default 0
                  (weights layer !! (j * Z.to_nat (input_size layer) + i)%nat) *
                default 0 (input !! i))))
       (seq 0 m) 0
     + default 0 (biases layer !! j)).

(** The sum a dense layer feeds its activation with: every input times its
    weight, plus the bias. *)
Definition dense_sum (layer : npu_layer_t) (input : list Z) (j : nat) : Z :=
  dense_sum_first (Z.to_nat (input_size layer)) layer input j.

(** The number of processing elements [npu_dense_forward] gives each
    output neuron. *)
Definition pe_budget (layer : npu_layer_t) : Z :=
  let pe_per_output := NPU_PE_COUNT / output_size layer in
  if pe_per_output =? 0 then 1 else pe_per_output.

(** The value [npu_dense_forward] stores in [output[j]]: the activation of
    the sum over the inputs its processing elements reach. *)
Definition neuron_value (sigmoid_fixed tanh_fixed : Z -> Z)
    (layer : npu_layer_t) (input : list Z) (j : nat) : Z :=
  npu_apply_activation sigmoid_fixed tanh_fixed
    (to_int16
       (dense_sum_first
          (Z.to_nat (Z.min (pe_budget layer) (input_size layer)))
          layer input j))
    (activation layer).

(** [npu_init]: the controller as allocated, every processing element
    cleared; the global learning rate is [0.001f]. *)
Definition npu_init : npu_controller_t :=
  mk_controller
    (map (fun i => mk_pe (Z.of_nat i) 0 0 0 false)
       (seq 0 (Z.to_nat NPU_PE_COUNT)))
    0 false (S754_finite false 8589935 (-33)).

(** Two dense layers with ReLU and zero biases: the 2 x 2 identity, and a
    layer of 512 neurons over 3 inputs with every weight 1. *)
Definition identity_layer : npu_layer_t :=
  mk_layer LAYER_DENSE 2 2 0 0 0 ACTIVATION_RELU [1; 0; 0; 1] [0; 0]
    fzero (S754_finite false 8589935 (-33)).

Definition wide_layer : npu_layer_t :=
  mk_layer LAYER_DENSE 3 512 0 0 0 ACTIVATION_RELU
    (replicate 1536 1) (replicate 512 0)
    fzero (S754_finite false 8589935 (-33)).

End Npu.

(** ** Classes of single-precision values, and sample machine states *)

Definition is_zero (x : float) : bool :=
  match x with S754_zero _ => true | _ => false end.
Definition is_finite_nonzero (x : float) : bool :=
  match x with S754_finite _ _ _ => true | _ => false end.
Definition is_nan (x : float) : bool :=
  match x with S754_nan => true | _ => false end.

(** A core as [cpu_init] leaves it: registers cleared, PC at 0x1000, SP and
    FP at 0x8000. *)
Definition example_core : cpu_core_t :=
  let empty_cache := mk_cache [] 0 0 0 0 in
  mk_cpu_core 0 0
    (mk_register_file (replicate 64 0) (replicate 64 fzero)
       (replicate 32 (replicate 64 0)) 0x1000 0x8000 0x8000 0 0)
    empty_cache empty_cache empty_cache empty_cache
    (replicate 12 0) 0 (replicate 1024 0) (replicate 8 0).

Definition with_gpr (core : cpu_core_t) (i x : Z) : cpu_core_t :=
  set_regs core (set_gpr (regs core) i x).

Definition with_fpr (core : cpu_core_t) (i : Z) (x : float) : cpu_core_t :=
  set_regs core (set_fpr (regs core) i x).

Definition with_vector (core : cpu_core_t) (v : Z) (bytes : list Z)
    : cpu_core_t :=
  let r := regs core in
  set_regs core
    (mk_register_file (gpr r) (fpr r) (<[Z.to_nat v := bytes]> (vector r))
       (pc r) (sp r) (fp r) (lr r) (flags r)).

(** Vector register [v] of a core, as a 512-bit vector of
    [vector-operations.c]. *)
Definition vreg (core : cpu_core_t) (v : Z) : VectorOps.alpha_ahb_vector_t :=
  VectorOps.mk_vector (default [] (vector (regs core) !! Z.to_nat v)).

Definition fone : float := S754_finite false 8388608 (-23).

(** ** The simulation loop, the byte operations of the vector unit, [cpu_init] *)

(** One turn of the inner loop of [main]: fetch at PC, then execute what
    was fetched (the progress lines it prints are left out).  The result is
    the status of the execution and the core afterwards. *)
Definition cpu_cycle (uninit : instruction_type_t) (core : cpu_core_t)
    : Z * cpu_core_t :=
  let '(fetched, core1, inst) := cpu_fetch_instruction core (pc (regs core)) in
  if fetched =? 0 then
    let '(status, core2, _) := cpu_execute_instruction uninit core1 inst in
    (status, core2)
  else (fetched, core1).

(** [n] turns of that loop on one core. *)
Definition cpu_simulate (uninit : instruction_type_t) (n : nat)
    (core : cpu_core_t) : cpu_core_t :=
  for_range n (fun _ c => snd (cpu_cycle uninit c)) core.

(** What the four loops of [cpu_execute_vector] store for one pair of
    bytes, by funct. *)
Definition vector_byte_op (fn a b : Z) : Z :=
  match fn with
  | 0x0 => to_uint8 (a + b)
  | 0x1 => to_uint8 (a - b)
  | 0x2 => to_uint8 (a * b)
  | _ => if negb (b =? 0) then to_uint8 (a / b) else 0
  end.

Definition MAX_CORES : Z := 16.

(** [cpu_system_t]; [memory] is the buffer the pointer addresses. *)
Record cpu_system_t := mk_cpu_system {
  cores : list cpu_core_t;      (* cpu_core_t cores[MAX_CORES] *)
  num_cores : Z;
  memory : list Z;
  memory_size : Z;
  clock_frequency : Z;
  power_consumption : Z
}.

Definition set_cache_size (c : cache_t) (x : Z) : cache_t :=
  mk_cache (lines c) x (associativity c) (line_size c) (sets c).

(** The register file after [memset(&core->regs, 0, ...)] and the three
    assignments that follow it. *)
Definition reset_register_file : register_file_t :=
  mk_register_file (replicate 64 0) (replicate 64 fzero)
    (replicate 32 (replicate 64 0)) 0x1000 0x8000 0x8000 0 0.

(** Body of the loop of [cpu_init] for core [i]: the fields it assigns; the
    other fields of the four caches keep what the allocation left there. *)
Definition init_core (i : nat) (c : cpu_core_t) : cpu_core_t :=
  mk_cpu_core (Z.of_nat i) 0 reset_register_file
    (set_cache_size (l1i c) (256 * 1024))
    (set_cache_size (l1d c) (256 * 1024))
    (set_cache_size (l2 c) (16 * 1024 * 1024))
    (set_cache_size (l3 c) (512 * 1024 * 1024))
    (replicate 12 0) 0 (replicate 1024 0) (replicate 8 0).

(** [cpu_init(num_cores, memory_size)].  [cpu_alloc] and [mem_alloc] are
    what the two calls of [malloc] return: [None] for a null pointer,
    otherwise the object with the contents the allocator left in it.
    [None] as a result is the null pointer. *)
Definition cpu_init (cpu_alloc : option cpu_system_t)
    (mem_alloc : option (list Z)) (n_cores mem_size : Z)
    : option cpu_system_t :=
  match cpu_alloc with
  | None => None
  | Some cpu =>
      match mem_alloc with
      | None => None
      | Some mem =>
          let cpu0 := mk_cpu_system (cores cpu) n_cores mem mem_size 5000 0 in
          Some
            (for_range (Z.to_nat n_cores)
               (fun i sys =>
                  mk_cpu_system (alter (init_core i) i (cores sys))
                    (num_cores sys) (memory sys) (memory_size sys)
                    (clock_frequency sys) (power_consumption sys + 25))
               cpu0)
      end
  end.

(** VSUB V1, V1: both operands name the same register. *)
Definition vsub_self : instruction_t := mk_instruction 0x6 0x1 0x1 0x1 0 0.

(** Operands the square root rejects: negative and not a zero. *)
Definition is_negative_nonzero (x : float) : bool :=
  match x with
  | S754_infinity true | S754_finite true _ _ => true
  | _ => false
  end.

(** ** Arbitrary-precision and block floating-point numbers
    ([advanced-arithmetic.c]) *)

Module AdvancedArithmetic.

(** [ap_number_t]; [data] is the array of 64-bit words the pointer
    addresses, least significant word first. *)
Record ap_number_t := mk_ap_number {
  precision : Z;          (* uint32_t, in bits *)
  sign : Z;               (* uint32_t *)
  data : list Z;          (* uint64_t* *)
  ref_count : Z           (* uint32_t *)
}.

(** One turn of the loop of [ap_add]; the state is the result array and
    the carry. *)
Definition ap_add_step (a b : ap_number_t) (i : nat) (st : list Z * Z)
    : list Z * Z :=
  let '(out, carry) := st in
  let a_i := default 0 (data a !! i) in
  let b_i := default 0 (data b !! i) in
  let sum := to_uint64 (a_i + b_i + carry) in
  (<[i := sum]> out, if sum <? a_i then 1 else 0).

(** [ap_add(a, b)]: the result object, with the array [calloc] delivers
    zeroed (the function does not test its allocations; they are taken to
    succeed). *)
Definition ap_add (a b : ap_number_t) : ap_number_t :=
  let max_precision :=
    to_int32 (if precision a >? precision b then precision a else precision b) in
  let data_size := Z.quot (to_int32 (max_precision + 63)) 64 in
  let '(out, _) :=
    for_range (Z.to_nat data_size) (ap_add_step a b)
      (replicate (Z.to_nat data_size) 0, 0) in
  mk_ap_number (to_uint32 max_precision) 0 out 1.

(** The number the first [n] words of an array stand for. *)
Fixpoint words_value (n : nat) (l : list Z) : Z :=
  match n with
  | O => 0
  | S m => words_value m l + default 0 (l !! m) * 2 ^ (64 * Z.of_nat m)
  end.

(** [bfp_block_t]; [mantissas] is the byte array the pointer addresses. *)
Record bfp_block_t := mk_bfp_block {
  exponent : Z;           (* int8_t *)
  block_size : Z;         (* uint8_t *)
  bfp_precision : Z;      (* uint8_t precision *)
  reserved : Z;           (* uint8_t *)
  mantissas : list Z      (* uint8_t* *)
}.

(** [for (int i = 0; i < n; i++) out[i] = f(i)] *)
Definition fill_bytes (n : nat) (f : nat -> Z) (out : list Z) : list Z :=
  for_range n (fun i l => <[i := f i]> l) out.

(** [bfp_add(a, b)].  [alloc] is what the allocation of the result
    delivers: [None] for a null pointer, otherwise the object with its
    mantissa array as the allocator left them; the [reserved] byte is
    never assigned, the mantissa array is filled by one of the three
    loops.  [None] as a result is the null pointer. *)
Definition bfp_add (alloc : option bfp_block_t) (a b : bfp_block_t)
    : option bfp_block_t :=
  if negb (block_size a =? block_size b) then None
  else
    match alloc with None => None | Some raw =>
    let n := Z.to_nat (block_size a) in
    let a_m i := default 0 (mantissas a !! i) in
    let b_m i := default 0 (mantissas b !! i) in
    let exp_diff := to_int 8 (exponent a - exponent b) in
    let '(e, m) :=
      if exp_diff >? 0 then
        (exponent a,
         fill_bytes n (fun i => to_uint8 (a_m i + Z.shiftr (b_m i) exp_diff))
           (mantissas raw))
      else if exp_diff <? 0 then
        (exponent b,
         fill_bytes n (fun i => to_uint8 (Z.shiftr (a_m i) (- exp_diff) + b_m i))
           (mantissas raw))
      else
        (exponent a,
         fill_bytes n (fun i => to_uint8 (a_m i + b_m i)) (mantissas raw)) in
    Some (mk_bfp_block e (block_size a) (bfp_precision a) (reserved raw) m)
    end.

End AdvancedArithmetic.

(** * Properties *)

(** ** Fixed-width integers *)

Lemma to_uint_range bits x : 0 <= bits -> 0 <= to_uint bits x < 2 ^ bits.
Proof.
  intros Hb. unfold to_uint. apply Z.mod_pos_bound.
  apply Z.pow_pos_nonneg; lia.
Qed.

Lemma to_uint_id bits x : 0 <= x < 2 ^ bits -> to_uint bits x = x.
Proof. intros H. unfold to_uint. now apply Z.mod_small. Qed.

Lemma to_uint_land bits x :
  0 <= bits -> to_uint bits x = Z.land x (Z.ones bits).
Proof. intros Hb. unfold to_uint. now rewrite Z.land_ones. Qed.

Lemma to_int32_range x : in_int32 (to_int32 x).
Proof.
  unfold in_int32, to_int32, to_int, INT32_MIN, INT32_MAX.
  pose proof (to_uint_range 32 x ltac:(lia)) as H.
  change (2 ^ 32) with 4294967296 in *.
  change (2 ^ (32 - 1)) with 2147483648.
  destruct (Z.ltb_spec (to_uint 32 x) 2147483648); lia.
Qed.

Lemma to_int32_id x : in_int32 x -> to_int32 x = x.
Proof.
  unfold in_int32, to_int32, to_int, to_uint, INT32_MIN, INT32_MAX.
  change (2 ^ 32) with 4294967296.
  change (2 ^ (32 - 1)) with 2147483648.
  intros H.
  destruct (Z_le_gt_dec 0 x) as [Hx | Hx].
  - rewrite Z.mod_small by lia.
    destruct (Z.ltb_spec x 2147483648); lia.
  - replace (x mod 4294967296) with (x + 4294967296).
    + destruct (Z.ltb_spec (x + 4294967296) 2147483648); lia.
    + apply Z.mod_unique with (q := -1); lia.
Qed.

Lemma to_int32_to_uint32 x : to_int32 (to_uint32 x) = to_int32 x.
Proof.
  unfold to_int32, to_uint32, to_int, to_uint.
  now rewrite Z.mod_mod by (change (2 ^ 32) with 4294967296; lia).
Qed.

Lemma to_int64_id x : - 2 ^ 63 <= x < 2 ^ 63 -> to_int64 x = x.
Proof.
  unfold to_int64, to_int, to_uint.
  change (2 ^ 64) with 18446744073709551616.
  change (2 ^ (64 - 1)) with 9223372036854775808.
  change (2 ^ 63) with 9223372036854775808.
  intros H.
  destruct (Z_le_gt_dec 0 x) as [Hx | Hx].
  - rewrite Z.mod_small by lia.
    destruct (Z.ltb_spec x 9223372036854775808); lia.
  - replace (x mod 18446744073709551616) with (x + 18446744073709551616).
    + destruct (Z.ltb_spec (x + 18446744073709551616) 9223372036854775808); lia.
    + apply Z.mod_unique with (q := -1); lia.
Qed.

Lemma for_range_S {S : Type} n (body : nat -> S -> S) s :
  for_range (Datatypes.S n) body s = body n (for_range n body s).
Proof.
  unfold for_range. rewrite seq_S, fold_left_app. reflexivity.
Qed.

(** ** Decoder *)

Ltac nibble_cases x :=
  let H := fresh "Hx" in
  assert (H : x = 0 \/ x = 1 \/ x = 2 \/ x = 3 \/ x = 4 \/ x = 5 \/ x = 6 \/
              x = 7 \/ x = 8 \/ x = 9 \/ x = 10 \/ x = 11 \/ x = 12 \/
              x = 13 \/ x = 14 \/ x = 15) by lia;
  repeat (destruct H as [H | H]; [subst x | ]); [.. | subst x].

Lemma in_uint4_bounds x : in_uint 4 x -> 0 <= x < 16.
Proof. unfold in_uint. change (2 ^ 4) with 16. tauto. Qed.

(** The 256 pairs, one by one. *)
Lemma decode_nibbles op fn r2 r1 im ex type :
  0 <= op < 16 -> 0 <= fn < 16 ->
  let inst := mk_instruction op fn r2 r1 im ex in
  match table_lookup op fn decode_table with
  | Some k => cpu_decode_instruction inst type = (0, k)
  | None => cpu_decode_instruction inst type = (-1, type)
  end.
Proof.
  intros Hop Hfn.
  nibble_cases op; nibble_cases fn; reflexivity.
Qed.

(** C1.  For every instruction word, [cpu_decode_instruction] agrees with
    the decode table: on a pair the table holds it returns 0 and sets the
    output type to the row's operation; on each of the other pairs among the
    256 it returns the negative status -1 and leaves the output type as it
    was, so no operation (NOP or any other) is assigned. *)
Theorem cpu_decode_instruction_table (inst : instruction_t)
    (type : instruction_type_t) :
  wf_instruction inst ->
  match table_lookup (opcode inst) (funct inst) decode_table with
  | Some op => cpu_decode_instruction inst type = (0, op)
  | None =>
      cpu_decode_instruction inst type = (-1, type) /\
      fst (cpu_decode_instruction inst type) < 0
  end.
Proof.
  destruct inst as [op fn r2 r1 im ex].
  intros (Hop & Hfn & _). cbn [opcode funct] in *.
  apply in_uint4_bounds in Hop. apply in_uint4_bounds in Hfn.
  pose proof (decode_nibbles op fn r2 r1 im ex type Hop Hfn) as Hrow.
  cbv zeta in Hrow.
  destruct (table_lookup op fn decode_table) as [k | ].
  - exact Hrow.
  - split; [exact Hrow | ]. rewrite Hrow. cbn. lia.
Qed.

Lemma cpu_decode_instruction_table_witness :
  cpu_decode_instruction (mk_instruction 0x0 0xB 0x2 0x1 0 0) INST_NOP
    = (0, INST_CMP) /\
  cpu_decode_instruction (mk_instruction 0x4 0x0 0x2 0x1 0 0) INST_NOP
    = (-1, INST_NOP).
Proof.
  split.
  - apply (cpu_decode_instruction_table (mk_instruction 0x0 0xB 0x2 0x1 0 0) INST_NOP).
    unfold wf_instruction, in_uint; cbn; lia.
  - apply (cpu_decode_instruction_table (mk_instruction 0x4 0x0 0x2 0x1 0 0) INST_NOP).
    unfold wf_instruction, in_uint; cbn; lia.
Defined.

(** The table has one row per pair, 39 rows in all. *)
Lemma decode_table_keys_distinct :
  NoDup (map fst decode_table) /\ length decode_table = 39%nat.
Proof.
  split; [ | reflexivity].
  apply (bool_decide_unpack _). vm_compute. reflexivity.
Qed.

(** The same agreement for the instruction carried by any 64-bit word. *)
Lemma instruction_of_word_wf w : wf_instruction (instruction_of_word w).
Proof.
  unfold wf_instruction, instruction_of_word, bit_field, in_uint; cbn.
  repeat split;
    try (rewrite Z.land_ones by lia; apply Z.mod_pos_bound; lia).
Qed.

Lemma cpu_decode_word_table w type :
  let inst := instruction_of_word w in
  match table_lookup (opcode inst) (funct inst) decode_table with
  | Some op => cpu_decode_instruction inst type = (0, op)
  | None => cpu_decode_instruction inst type = (-1, type)
  end.
Proof.
  intros inst.
  destruct (instruction_of_word_wf w) as (Hop & Hfn & _).
  apply in_uint4_bounds in Hop. apply in_uint4_bounds in Hfn.
  exact (decode_nibbles _ _ _ _ _ _ type Hop Hfn).
Qed.

(** ** Fetch *)

(** A fetch succeeds, advances PC by the instruction width of 8 bytes
    (modulo [2^64]) and touches nothing else of the register file. *)
Lemma cpu_fetch_instruction_advances core address :
  let '(status, core', inst) := cpu_fetch_instruction core address in
  status = 0 /\
  pc (regs core') = to_uint64 (pc (regs core) + 8) /\
  gpr (regs core') = gpr (regs core) /\
  flags (regs core') = flags (regs core) /\
  cpu_decode_instruction inst INST_NOP = (0, INST_ADD).
Proof. cbn. repeat split; reflexivity. Qed.

(** ** Integer execution unit *)

(** Bits of the masks [~0x01] and [~0x02] as [uint64_t] values. *)
Lemma not_mask_bit m k :
  0 <= k < 64 -> Z.testbit (to_uint64 (Z.lnot m)) k = negb (Z.testbit m k).
Proof.
  intros Hk. unfold to_uint64. rewrite to_uint_land by lia.
  rewrite Z.land_spec, Z.lnot_spec by lia.
  rewrite Z.ones_spec_low by lia. apply andb_true_r.
Qed.

Lemma flag_zero_bit k : 0 <= k -> Z.testbit FLAG_ZERO k = (k =? 0).
Proof.
  intros Hk. change FLAG_ZERO with (2 ^ 0).
  rewrite Z.pow2_bits_eqb by lia. apply Z.eqb_sym.
Qed.

Lemma flag_sign_bit k : 0 <= k -> Z.testbit FLAG_SIGN k = (k =? 1).
Proof.
  intros Hk. change FLAG_SIGN with (2 ^ 1).
  rewrite Z.pow2_bits_eqb by lia. apply Z.eqb_sym.
Qed.

(** The test [result & 0x8000000000000000] reads bit 63. *)
Lemma sign_mask_test r :
  negb (Z.land r 0x8000000000000000 =? 0) = Z.testbit r 63.
Proof.
  change 0x8000000000000000 with (2 ^ 63).
  destruct (Z.testbit r 63) eqn:Hb.
  - apply negb_true_iff, Z.eqb_neq. intros H0.
    assert (Hc : Z.testbit (Z.land r (2 ^ 63)) 63 = true).
    { rewrite Z.land_spec, Hb, Z.pow2_bits_true by lia. reflexivity. }
    rewrite H0 in Hc. discriminate.
  - apply negb_false_iff, Z.eqb_eq. apply Z.bits_inj'. intros n Hn.
    rewrite Z.land_spec, Z.pow2_bits_eqb, Z.bits_0 by lia.
    destruct (Z.eqb_spec 63 n) as [<- | ].
    + now rewrite Hb.
    + apply andb_false_r.
Qed.

(** Every bit of FLAGS after the update, in terms of the bits before and of
    the result. *)
Lemma update_flags_bit fl r k :
  0 <= k < 64 ->
  Z.testbit (update_flags fl r) k =
    if k =? 0 then (r =? 0)
    else if k =? 1 then Z.testbit r 63
    else Z.testbit fl k.
Proof.
  intros Hk. unfold update_flags. rewrite sign_mask_test.
  destruct (Z.testbit r 63), (r =? 0); cbn [negb];
    repeat first
      [ rewrite Z.lor_spec | rewrite Z.land_spec
      | rewrite not_mask_bit by lia | rewrite flag_zero_bit by lia
      | rewrite flag_sign_bit by lia ];
    destruct (Z.eqb_spec k 0); destruct (Z.eqb_spec k 1);
    try lia; cbn;
    rewrite ?andb_true_r, ?andb_false_r, ?orb_true_r, ?orb_false_r;
    reflexivity.
Qed.

(** What a successful run of [cpu_execute_arithmetic] produces. *)
Lemma cpu_execute_arithmetic_success core inst core' :
  cpu_execute_arithmetic core inst = (0, core') ->
  exists result,
    arithmetic_result (funct inst) (gpr_read (regs core) (rs1 inst))
      (gpr_read (regs core) (rs2 inst)) = Some result /\
    core' =
      set_regs core
        (set_flags (set_gpr (regs core) (rs1 inst) result)
           (update_flags (flags (regs core)) result)).
Proof.
  unfold cpu_execute_arithmetic.
  destruct (arithmetic_result _ _ _) as [result | ]; intros H.
  - exists result. split; [reflexivity | ]. now inversion H.
  - discriminate.
Qed.

Lemma gpr_read_set_gpr r i x :
  (Z.to_nat i < length (gpr r))%nat -> gpr_read (set_gpr r i x) i = x.
Proof.
  intros Hi. unfold gpr_read, set_gpr. cbn.
  now rewrite list_lookup_insert_eq.
Qed.

(** C2.  For every core state and every DIV or MOD instruction whose second
    source register holds zero, [cpu_execute_arithmetic] returns a negative
    status and the core afterwards is the core before: in particular
    nothing is written to [gpr[rs1]] and FLAGS keeps its value. *)
Theorem div_mod_by_zero_atomic (core : cpu_core_t) (inst : instruction_t) :
  funct inst = 0x3 \/ funct inst = 0x4 ->
  gpr_read (regs core) (rs2 inst) = 0 ->
  fst (cpu_execute_arithmetic core inst) < 0 /\
  snd (cpu_execute_arithmetic core inst) = core /\
  gpr (regs (snd (cpu_execute_arithmetic core inst))) = gpr (regs core) /\
  flags (regs (snd (cpu_execute_arithmetic core inst))) = flags (regs core).
Proof.
  intros Hfn Hzero. unfold cpu_execute_arithmetic.
  rewrite Hzero.
  destruct Hfn as [-> | ->]; cbn; repeat split; lia.
Qed.

Lemma div_mod_by_zero_atomic_witness :
  let core := with_gpr example_core 1 42 in
  let inst := mk_instruction 0x0 0x3 0x2 0x1 0 0 in
  fst (cpu_execute_arithmetic core inst) < 0 /\
  snd (cpu_execute_arithmetic core inst) = core.
Proof.
  intros core inst.
  destruct (div_mod_by_zero_atomic core inst) as (H1 & H2 & _).
  - left. reflexivity.
  - reflexivity.
  - split; assumption.
Defined.

(** C3.  For every register state and every arithmetic/logic instruction
    that succeeds (functs 0x0 to 0xA: ADD, SUB, MUL, DIV, MOD, AND, OR, XOR,
    SHL, SHR, ROT), after writeback the Zero bit of FLAGS is set exactly
    when the value written to [gpr[rs1]] is zero, and the Sign bit exactly
    when bit 63 of that value is 1. *)
Theorem arithmetic_flags_match_result (core core' : cpu_core_t)
    (inst : instruction_t) :
  wf_instruction inst ->
  length (gpr (regs core)) = 64%nat ->
  cpu_execute_arithmetic core inst = (0, core') ->
  let result := gpr_read (regs core') (rs1 inst) in
  0 <= funct inst <= 0xA /\
  arithmetic_result (funct inst) (gpr_read (regs core) (rs1 inst))
    (gpr_read (regs core) (rs2 inst)) = Some result /\
  (zero_flag (regs core') = true <-> result = 0) /\
  (sign_flag (regs core') = true <-> Z.testbit result 63 = true).
Proof.
  intros (_ & Hfn & _ & Hrs1 & _) Hlen Hrun.
  apply in_uint4_bounds in Hfn. apply in_uint4_bounds in Hrs1.
  destruct (cpu_execute_arithmetic_success _ _ _ Hrun) as (res & Hres & ->).
  assert (Hread :
    gpr_read (set_flags (set_gpr (regs core) (rs1 inst) res)
                (update_flags (flags (regs core)) res)) (rs1 inst) = res).
  { apply (gpr_read_set_gpr (regs core)). rewrite Hlen. lia. }
  cbn zeta. cbn [regs set_regs]. rewrite Hread.
  unfold zero_flag, sign_flag. cbn [flags set_flags].
  rewrite !update_flags_bit by lia. cbn.
  split; [ | split; [exact Hres | split] ].
  - remember (funct inst) as fn. clear - Hfn Hres.
    nibble_cases fn; cbn in Hres; try discriminate; lia.
  - apply Z.eqb_eq.
  - reflexivity.
Qed.

Lemma arithmetic_flags_match_result_witness :
  let core := with_gpr (with_gpr example_core 1 5) 2 5 in
  let inst := mk_instruction 0x0 0x1 0x2 0x1 0 0 in
  let core' := snd (cpu_execute_arithmetic core inst) in
  gpr_read (regs core') 1 = 0 /\
  (zero_flag (regs core') = true <-> gpr_read (regs core') 1 = 0).
Proof.
  intros core inst core'.
  assert (Hwf : wf_instruction inst)
    by (unfold wf_instruction, in_uint; cbn; lia).
  destruct (arithmetic_flags_match_result core core' inst Hwf eq_refl eq_refl)
    as (_ & _ & Hz & _).
  split; [reflexivity | exact Hz].
Defined.

(** C10.  A successful [cpu_execute_arithmetic] changes at most
    [gpr[rs1]] and bits 0 and 1 of FLAGS: every other general register,
    the floating-point and vector registers, PC, SP, FP, LR, bits 2 to 63
    of FLAGS and everything of the core outside the register file are as
    before. *)
Theorem arithmetic_frame (core core' : cpu_core_t) (inst : instruction_t) :
  cpu_execute_arithmetic core inst = (0, core') ->
  (forall i : nat, i <> Z.to_nat (rs1 inst) ->
     gpr (regs core') !! i = gpr (regs core) !! i) /\
  length (gpr (regs core')) = length (gpr (regs core)) /\
  fpr (regs core') = fpr (regs core) /\
  vector (regs core') = vector (regs core) /\
  pc (regs core') = pc (regs core) /\
  sp (regs core') = sp (regs core) /\
  fp (regs core') = fp (regs core) /\
  lr (regs core') = lr (regs core) /\
  (forall k, 2 <= k <= 63 ->
     Z.testbit (flags (regs core')) k = Z.testbit (flags (regs core)) k) /\
  core' = set_regs core (regs core').
Proof.
  intros Hrun.
  destruct (cpu_execute_arithmetic_success _ _ _ Hrun) as (res & _ & ->).
  cbn. repeat split.
  - intros i Hi. now apply list_lookup_insert_ne.
  - apply length_insert.
  - intros k Hk. rewrite update_flags_bit by lia.
    destruct (Z.eqb_spec k 0); [lia | ].
    destruct (Z.eqb_spec k 1); [lia | reflexivity].
Qed.

Lemma arithmetic_frame_witness :
  let core := with_gpr (with_gpr example_core 1 5) 2 7 in
  let inst := mk_instruction 0x0 0x0 0x2 0x1 0 0 in
  let core' := snd (cpu_execute_arithmetic core inst) in
  gpr_read (regs core') 1 = 12 /\
  gpr (regs core') !! 2%nat = gpr (regs core) !! 2%nat /\
  pc (regs core') = pc (regs core).
Proof.
  intros core inst core'.
  destruct (arithmetic_frame core core' inst eq_refl)
    as (Hgpr & _ & _ & _ & Hpc & _).
  split; [reflexivity | split; [ | exact Hpc]].
  apply Hgpr. cbn. lia.
Defined.

(** ROT by a masked amount of zero evaluates [rs1_val >> 64].  Whether the
    full-width shift gives 0 or, with the count taken modulo 64 as the
    x86-64 shifter does, [rs1_val] itself, the rotation is [rs1_val]. *)
Lemma rot_full_width_shift_irrelevant x y :
  in_uint 64 x -> Z.land y 0x3F = 0 ->
  arithmetic_result 0xA x y = Some x /\
  Z.lor (to_uint64 (Z.shiftl x 0)) (Z.shiftr x (Z.land 64 0x3F)) = x.
Proof.
  intros Hx Hy. unfold arithmetic_result. rewrite Hy.
  rewrite Z.shiftl_0_r. unfold to_uint64.
  rewrite to_uint_id by exact Hx. split.
  - f_equal. rewrite Z.sub_0_r, Z.shiftr_div_pow2 by lia.
    unfold in_uint in Hx. rewrite Z.div_small by lia. apply Z.lor_0_r.
  - change (Z.land 64 0x3F) with 0. rewrite Z.shiftr_0_r. apply Z.lor_diag.
Qed.

(** Bounds for the bitwise operations on [uint64_t] values. *)
Lemma in_uint_bits n x :
  0 <= n ->
  (in_uint n x <-> (forall k, n <= k -> Z.testbit x k = false) /\ 0 <= x).
Proof.
  intros Hn. unfold in_uint. split.
  - intros [H0 Hlt]. split; [ | exact H0].
    intros k Hk. destruct (Z.eq_dec x 0) as [-> | Hne].
    + apply Z.bits_0.
    + apply Z.bits_above_log2; [lia | ].
      assert (Z.log2 x < n) by (apply Z.log2_lt_pow2; lia). lia.
  - intros [Hbits H0]. split; [exact H0 | ].
    destruct (Z.eq_dec x 0) as [-> | Hne].
    + apply Z.pow_pos_nonneg; lia.
    + apply Z.log2_lt_pow2; [lia | ].
      destruct (Z_lt_le_dec (Z.log2 x) n) as [ | Hge]; [assumption | ].
      assert (Hb : Z.testbit x (Z.log2 x) = true)
        by (apply Z.bit_log2; lia).
      rewrite Hbits in Hb by lia. discriminate.
Qed.

Lemma in_uint_bitwise (f : Z -> Z -> Z) (g : bool -> bool -> bool) n x y :
  0 <= n -> g false false = false ->
  (forall a b, 0 <= a -> 0 <= b -> 0 <= f a b) ->
  (forall a b k, 0 <= k -> Z.testbit (f a b) k = g (Z.testbit a k) (Z.testbit b k)) ->
  in_uint n x -> in_uint n y -> in_uint n (f x y).
Proof.
  intros Hn Hg Hpos Hspec Hx Hy.
  apply in_uint_bits in Hx as [Hxb Hx0]; [ | exact Hn].
  apply in_uint_bits in Hy as [Hyb Hy0]; [ | exact Hn].
  apply in_uint_bits; [exact Hn | ]. split.
  - intros k Hk. rewrite Hspec, Hxb, Hyb by lia. exact Hg.
  - now apply Hpos.
Qed.

Lemma in_uint_land n x y : 0 <= n -> in_uint n x -> in_uint n y -> in_uint n (Z.land x y).
Proof.
  intros Hn. apply (in_uint_bitwise Z.land andb); try lia; try reflexivity.
  - intros; now apply Z.land_nonneg; left.
  - intros; apply Z.land_spec.
Qed.

Lemma in_uint_lor n x y : 0 <= n -> in_uint n x -> in_uint n y -> in_uint n (Z.lor x y).
Proof.
  intros Hn. apply (in_uint_bitwise Z.lor orb); try lia; try reflexivity.
  - intros; now apply Z.lor_nonneg.
  - intros; apply Z.lor_spec.
Qed.

Lemma in_uint_lxor n x y : 0 <= n -> in_uint n x -> in_uint n y -> in_uint n (Z.lxor x y).
Proof.
  intros Hn. apply (in_uint_bitwise Z.lxor xorb); try lia; try reflexivity.
  - intros; now apply Z.lxor_nonneg.
  - intros; apply Z.lxor_spec.
Qed.

Lemma in_uint_shiftr n x s : in_uint n x -> 0 <= s -> in_uint n (Z.shiftr x s).
Proof.
  intros [Hx0 Hx1] Hs. unfold in_uint. rewrite Z.shiftr_div_pow2 by lia.
  assert (0 < 2 ^ s) by (apply Z.pow_pos_nonneg; lia).
  split; [apply Z.div_pos; lia | ].
  apply Z.le_lt_trans with x; [ | exact Hx1].
  apply Z.div_le_upper_bound; [lia | nia].
Qed.

(** Every value [arithmetic_result] yields on 64-bit operands is a 64-bit
    value: the quotient and the remainder of [Z] are those of [uint64_t]
    there, and the bitwise results need no wrap. *)
Lemma arithmetic_result_range fn x y r :
  in_uint 64 x -> in_uint 64 y ->
  arithmetic_result fn x y = Some r -> in_uint 64 r.
Proof.
  intros Hx Hy. unfold arithmetic_result.
  pose proof (fun v => to_uint_range 64 v ltac:(lia)) as Hwrap.
  assert (Hamt : 0 <= Z.land y 0x3F <= 63).
  { change (Z.land y 0x3F) with (Z.land y (Z.ones 6)).
    rewrite Z.land_ones by lia.
    pose proof (Z.mod_pos_bound y (2 ^ 6) ltac:(lia)) as Hm.
    change (2 ^ 6) with 64 in *. lia. }
  destruct fn as [ | p | p]; try discriminate;
    [ | do 4 (try destruct p as [p | p | ]); try discriminate ];
    intros Hr;
    try (destruct (Z.eqb_spec y 0) as [ | Hy0]; cbn in Hr; [discriminate | ]);
    inversion Hr; subst r; clear Hr;
    first
      [ apply Hwrap
      | apply in_uint_land; [lia | assumption | assumption]
      | apply in_uint_lor; [lia | assumption | assumption]
      | apply in_uint_lxor; [lia | assumption | assumption]
      | apply in_uint_shiftr; [assumption | lia]
      | apply in_uint_lor;
        [lia | apply Hwrap | apply in_uint_shiftr; [assumption | lia]]
      | idtac ].
  (* what remains: the remainder and the quotient by a nonzero divisor *)
  all: unfold in_uint in *.
  all: first
    [ pose proof (Z.mod_pos_bound x y ltac:(lia)); lia
    | split;
      [ apply Z.div_pos; lia
      | apply Z.le_lt_trans with x;
        [apply Z.div_le_upper_bound; [lia | nia] | lia] ] ].
Qed.

Lemma update_flags_range fl r : in_uint 64 fl -> in_uint 64 (update_flags fl r).
Proof.
  intros Hfl. unfold update_flags.
  pose proof (fun v => to_uint_range 64 v ltac:(lia)) as Hwrap.
  assert (H1 : in_uint 64 FLAG_ZERO) by (unfold in_uint, FLAG_ZERO; lia).
  assert (H2 : in_uint 64 FLAG_SIGN) by (unfold in_uint, FLAG_SIGN; lia).
  destruct (r =? 0); destruct (negb _);
    repeat first
      [ assumption | apply Hwrap
      | apply in_uint_lor; [lia | | ] | apply in_uint_land; [lia | | ] ].
Qed.

Lemma gpr_read_range r i : wf_register_file r -> in_uint 64 (gpr_read r i).
Proof.
  intros (_ & Hall & _). unfold gpr_read.
  destruct (gpr r !! Z.to_nat i) as [x | ] eqn:Hx; cbn.
  - rewrite Forall_lookup in Hall. exact (Hall _ _ Hx).
  - unfold in_uint. lia.
Qed.

(** The integer unit keeps the register file well formed: what it writes
    to [gpr[rs1]] and to FLAGS are 64-bit values. *)
Lemma cpu_execute_arithmetic_wf core inst :
  wf_register_file (regs core) ->
  wf_register_file (regs (snd (cpu_execute_arithmetic core inst))).
Proof.
  intros Hwf. unfold cpu_execute_arithmetic.
  destruct (arithmetic_result _ _ _) as [res | ] eqn:Hres; [ | exact Hwf].
  apply arithmetic_result_range in Hres; try now apply gpr_read_range.
  destruct Hwf as (Hlen & Hall & Hf & Hv & Hrows & Hpc & Hsp & Hfp & Hlr & Hfl).
  unfold wf_register_file.
  cbn [snd regs set_regs set_flags set_gpr gpr fpr vector pc sp fp lr flags].
  rewrite length_insert.
  split; [exact Hlen | ]. split; [now apply Forall_insert | ].
  split; [exact Hf | ]. split; [exact Hv | ]. split; [exact Hrows | ].
  split; [exact Hpc | ]. split; [exact Hsp | ]. split; [exact Hfp | ].
  split; [exact Hlr | ]. now apply update_flags_range.
Qed.

(** ** Dispatcher: CMP, CLZ, CTZ and POPCNT *)

(** An R-type instruction with funct 0xB to 0xE decodes, but neither the
    dispatcher nor the integer unit has a case for it. *)
Lemma bit_ops_decode_but_fail uninit core inst :
  opcode inst = 0x0 -> 0xB <= funct inst <= 0xE ->
  fst (cpu_decode_instruction inst uninit) = 0 /\
  In (snd (cpu_decode_instruction inst uninit))
     [INST_CMP; INST_CLZ; INST_CTZ; INST_POPCNT] /\
  cpu_execute_instruction uninit core inst = (-1, core, []) /\
  cpu_execute_arithmetic core inst = (-1, core).
Proof.
  intros Hop Hfn.
  unfold cpu_execute_instruction, cpu_execute_arithmetic,
    cpu_decode_instruction.
  rewrite Hop. remember (funct inst) as fn.
  assert (Hc : fn = 11 \/ fn = 12 \/ fn = 13 \/ fn = 14) by lia.
  destruct Hc as [-> | [-> | [-> | ->]]]; cbn; intuition.
Qed.

(** C4 (the code does not do what the claim states).  CMP R1, R2 - opcode
    0x0, funct 0xB - decodes to [INST_CMP] with status 0, and executing it
    fails with status -1 and leaves the core, FLAGS included, as it was;
    the same holds for CLZ, CTZ and POPCNT (funct 0xC, 0xD, 0xE). *)
Theorem cmp_clz_ctz_popcnt_execution_fails :
  forall (uninit : instruction_type_t) (core : cpu_core_t),
    let cmp := mk_instruction 0x0 0xB 0x2 0x1 0 0 in
    let clz := mk_instruction 0x0 0xC 0x2 0x1 0 0 in
    let ctz := mk_instruction 0x0 0xD 0x2 0x1 0 0 in
    let popcnt := mk_instruction 0x0 0xE 0x2 0x1 0 0 in
    cpu_decode_instruction cmp uninit = (0, INST_CMP) /\
    cpu_decode_instruction clz uninit = (0, INST_CLZ) /\
    cpu_decode_instruction ctz uninit = (0, INST_CTZ) /\
    cpu_decode_instruction popcnt uninit = (0, INST_POPCNT) /\
    cpu_execute_instruction uninit core cmp = (-1, core, []) /\
    cpu_execute_instruction uninit core clz = (-1, core, []) /\
    cpu_execute_instruction uninit core ctz = (-1, core, []) /\
    cpu_execute_instruction uninit core popcnt = (-1, core, []).
Proof.
  intros uninit core cmp clz ctz popcnt.
  repeat split; reflexivity.
Qed.

(** The instructions the dispatcher does execute go through unchanged: an
    ADD reaches the integer unit. *)
Lemma dispatch_add uninit core inst :
  opcode inst = 0x0 -> funct inst = 0x0 ->
  cpu_execute_instruction uninit core inst =
    (fst (cpu_execute_arithmetic core inst),
     snd (cpu_execute_arithmetic core inst), []).
Proof.
  intros Hop Hfn. unfold cpu_execute_instruction, cpu_decode_instruction.
  rewrite Hop, Hfn. cbn.
  destruct (cpu_execute_arithmetic core inst). reflexivity.
Qed.

(** The local [type] of the dispatcher is written before it is read. *)
Lemma cpu_execute_instruction_uninit u1 u2 core inst :
  wf_instruction inst ->
  cpu_execute_instruction u1 core inst = cpu_execute_instruction u2 core inst.
Proof.
  destruct inst as [op fn r2 r1 im ex].
  intros (Hop & Hfn & _). cbn [opcode funct] in *.
  apply in_uint4_bounds in Hop. apply in_uint4_bounds in Hfn.
  unfold cpu_execute_instruction.
  pose proof (decode_nibbles op fn r2 r1 im ex u1 Hop Hfn) as H1.
  pose proof (decode_nibbles op fn r2 r1 im ex u2 Hop Hfn) as H2.
  cbv zeta in H1, H2.
  destruct (table_lookup op fn decode_table); rewrite H1, H2; reflexivity.
Qed.

(** ** Floating-point unit: FDIV *)

(** The comparison [x != 0.0f] fails for the two zeros only; it holds for
    NaN, which compares unequal to everything. *)
Lemma ne_zero_test x : negb (SFeqb x fzero) = negb (is_zero x).
Proof. destruct x as [s | s | | s m e]; try destruct s; reflexivity. Qed.

(** C7 as amended.  FDIV fails with status -1, leaving the core as it was,
    exactly when the divisor [fpr[rs2]] is a zero (of either sign), whatever
    the dividend - zero, infinite and NaN dividends included; for every
    nonzero divisor (NaN included) it succeeds and writes the quotient to
    [fpr[rs1]]. *)
Theorem fdiv_fails_iff_zero_divisor (core : cpu_core_t) (inst : instruction_t) :
  funct inst = 0x3 ->
  let dividend := fpr_read (regs core) (rs1 inst) in
  let divisor := fpr_read (regs core) (rs2 inst) in
  (fst (cpu_execute_floating_point core inst) < 0 <-> is_zero divisor = true) /\
  (is_zero divisor = true ->
     cpu_execute_floating_point core inst = (-1, core)) /\
  (is_zero divisor = false ->
     cpu_execute_floating_point core inst =
       (0, set_regs core
             (set_fpr (regs core) (rs1 inst)
                (SFdiv prec32 emax32 dividend divisor)))).
Proof.
  intros Hfn dividend divisor.
  unfold cpu_execute_floating_point, float_result. rewrite Hfn.
  fold dividend divisor. rewrite ne_zero_test.
  destruct (is_zero divisor); cbn; repeat split; intros; try lia; congruence.
Qed.

Lemma fdiv_fails_iff_zero_divisor_witness :
  let inst := mk_instruction 0x8 0x3 0x2 0x1 0 0 in
  let nan_over_zero := with_fpr (with_fpr example_core 1 S754_nan) 2 fzero in
  let one_over_one := with_fpr (with_fpr example_core 1 fone) 2 fone in
  cpu_execute_floating_point nan_over_zero inst = (-1, nan_over_zero) /\
  fst (cpu_execute_floating_point one_over_one inst) = 0 /\
  fpr_read (regs (snd (cpu_execute_floating_point one_over_one inst))) 1 = fone.
Proof.
  intros inst nan_over_zero one_over_one.
  destruct (fdiv_fails_iff_zero_divisor nan_over_zero inst eq_refl)
    as (_ & Hfail & _).
  destruct (fdiv_fails_iff_zero_divisor one_over_one inst eq_refl)
    as (_ & _ & Hok).
  split; [apply Hfail; reflexivity | ].
  rewrite (Hok eq_refl). split; reflexivity.
Defined.

(** C7 as stated fails: with a zero dividend and a zero divisor - a
    quotient that is the representable NaN - and likewise with an infinite
    or a NaN dividend, the claim has FDIV succeed, and the code returns
    -1. *)
Lemma fdiv_zero_over_zero_rejected :
  let inst := mk_instruction 0x8 0x3 0x2 0x1 0 0 in
  let attempt (dividend : float) :=
    cpu_execute_floating_point
      (with_fpr (with_fpr example_core 1 dividend) 2 fzero) inst in
  ~ (forall dividend : float,
       fst (attempt dividend) < 0 <->
       is_zero fzero = true /\ is_finite_nonzero dividend = true) /\
  is_nan (SFdiv prec32 emax32 fzero fzero) = true /\
  fst (attempt fzero) = -1 /\
  fst (attempt (S754_infinity false)) = -1 /\
  fst (attempt S754_nan) = -1.
Proof.
  intros inst attempt. split; [ | repeat split; reflexivity].
  intros Hclaim. destruct (Hclaim fzero) as [Hdir _].
  assert (Hneg : fst (attempt fzero) < 0) by reflexivity.
  destruct (Hdir Hneg) as [_ Hfin]. discriminate Hfin.
Qed.

(** ** Lane operations *)

Module VectorFacts.
Import VectorOps.

Lemma byte_at_insert_eq d k x :
  (k < length d)%nat -> byte_at (<[k := x]> d) k = x.
Proof. intros H. unfold byte_at. now rewrite list_lookup_insert_eq. Qed.

Lemma byte_at_insert_ne d k j x :
  k <> j -> byte_at (<[k := x]> d) j = byte_at d j.
Proof. intros H. unfold byte_at. now rewrite list_lookup_insert_ne. Qed.

Lemma length_store_le32 d off x : length (store_le32 d off x) = length d.
Proof. unfold store_le32. now rewrite !length_insert. Qed.

(** The four bytes of a 32-bit value put together again. *)
Lemma le32_bytes u :
  0 <= u < 2 ^ 32 ->
  to_uint8 u + to_uint8 (Z.shiftr u 8) * 2 ^ 8 +
  to_uint8 (Z.shiftr u 16) * 2 ^ 16 + to_uint8 (Z.shiftr u 24) * 2 ^ 24 = u.
Proof.
  intros Hu. unfold to_uint8, to_uint.
  rewrite !Z.shiftr_div_pow2 by lia.
  change (2 ^ 8) with 256. change (2 ^ 16) with 65536.
  change (2 ^ 24) with 16777216. change (2 ^ 32) with 4294967296 in Hu.
  Z.div_mod_to_equations. lia.
Qed.

Lemma load_store_same d off x :
  (off + 4 <= length d)%nat ->
  load_le32 (store_le32 d off x) off = to_uint32 x.
Proof.
  intros Hlen. unfold load_le32, store_le32.
  replace (off + 0)%nat with off by lia.
  repeat first
    [ rewrite byte_at_insert_eq by (rewrite ?length_insert; lia)
    | rewrite byte_at_insert_ne by lia ].
  apply le32_bytes. apply (to_uint_range 32). lia.
Qed.

Lemma load_store_other d off off' x :
  (off + 4 <= off' \/ off' + 4 <= off)%nat ->
  load_le32 (store_le32 d off x) off' = load_le32 d off'.
Proof.
  intros Hsep. unfold load_le32, store_le32.
  now rewrite !byte_at_insert_ne by lia.
Qed.

Lemma read_write_same v i x :
  (i * 4 + 4 <= length (data v))%nat ->
  read_int32 (write_int32 v i x) i = to_int32 x.
Proof.
  intros Hlen. unfold read_int32, write_int32. cbn [data].
  rewrite load_store_same by exact Hlen. apply to_int32_to_uint32.
Qed.

Lemma read_write_other v i j x :
  i <> j -> read_int32 (write_int32 v i x) j = read_int32 v j.
Proof.
  intros Hne. unfold read_int32, write_int32. cbn [data].
  now rewrite load_store_other by lia.
Qed.

(** [lanes] is what [vector_extract_int32_array] copies out for a count of
    16, the rest of the destination array staying as it was. *)
Lemma vector_extract_all v array :
  vector_extract_int32_array v array 16 = lanes v ++ drop 16 array.
Proof. reflexivity. Qed.

Lemma read_int32_range v i : in_int32 (read_int32 v i).
Proof. apply to_int32_range. Qed.

Lemma or_bit_spec fl n k :
  0 <= k ->
  Z.testbit (Z.lor fl (Z.shiftl 1 (Z.of_nat n))) k =
    Z.testbit fl k || (k =? Z.of_nat n).
Proof.
  intros Hk. rewrite Z.lor_spec, Z.shiftl_1_l, Z.pow2_bits_eqb by lia.
  now rewrite (Z.eqb_sym k).
Qed.

(** A loop that, lane by lane, stores a value and raises the lane's flag
    bit on a condition: the shape of [vector_add_int32] and
    [vector_mul_int32]. *)
Section LaneLoop.

Variable val : nat -> Z.
Variable ovf : nat -> bool.
Variable step : nat -> vector_result_t -> vector_result_t.
Hypothesis step_shape : forall i r,
  step i r =
    mk_vector_result (write_int32 (result r) i (val i))
      (if ovf i then Z.lor (flags r) (Z.shiftl 1 (Z.of_nat i)) else flags r)
      (cycles r).

Lemma lane_loop_invariant (n : nat) (r0 : vector_result_t) :
  (n <= 16)%nat ->
  length (data (result r0)) = 64%nat ->
  flags r0 = 0 ->
  let r := for_range n step r0 in
  length (data (result r)) = 64%nat /\
  cycles r = cycles r0 /\
  (forall i, (i < n)%nat -> read_int32 (result r) i = to_int32 (val i)) /\
  (forall i, (n <= i)%nat -> read_int32 (result r) i = read_int32 (result r0) i) /\
  (forall k, 0 <= k ->
     Z.testbit (flags r) k = (k <? Z.of_nat n) && ovf (Z.to_nat k)).
Proof.
  intros Hn Hlen Hfl. induction n as [ | n IH].
  - cbn. repeat split; try done.
    + intros i Hi. lia.
    + intros k Hk. rewrite Hfl, Z.bits_0. change (Z.of_nat 0) with 0.
      destruct (Z.ltb_spec k 0); [lia | reflexivity].
  - specialize (IH ltac:(lia)). cbv zeta in IH.
    destruct IH as (IHlen & IHcyc & IHval & IHrest & IHfl).
    cbv zeta. rewrite for_range_S. set (r := for_range n step r0) in *.
    rewrite step_shape. cbn [result flags cycles].
    split; [ | split; [ | split; [ | split]]].
    + unfold write_int32. cbn [data]. now rewrite length_store_le32.
    + exact IHcyc.
    + intros i Hi. destruct (Nat.eq_dec i n) as [-> | Hne].
      * apply read_write_same. rewrite IHlen. lia.
      * rewrite read_write_other by lia. apply IHval. lia.
    + intros i Hi. rewrite read_write_other by lia. apply IHrest. lia.
    + intros k Hk.
      assert (Hbit : Z.testbit
                (if ovf n then Z.lor (flags r) (Z.shiftl 1 (Z.of_nat n))
                 else flags r) k =
              Z.testbit (flags r) k || ((k =? Z.of_nat n) && ovf n)).
      { destruct (ovf n).
        - rewrite or_bit_spec by lia. now rewrite andb_true_r.
        - now rewrite andb_false_r, orb_false_r. }
      rewrite Hbit, IHfl by lia.
      destruct (Z.eqb_spec k (Z.of_nat n)) as [-> | Hne].
      * rewrite Nat2Z.id.
        destruct (Z.ltb_spec (Z.of_nat n) (Z.of_nat n)); [lia | ].
        destruct (Z.ltb_spec (Z.of_nat n) (Z.of_nat (S n))); [ | lia].
        reflexivity.
      * destruct (Z.ltb_spec k (Z.of_nat n));
          destruct (Z.ltb_spec k (Z.of_nat (S n))); try lia;
          cbn; now rewrite ?orb_false_r.
Qed.

End LaneLoop.

(** The product of two [int32_t] values fits the [int64_t] intermediate. *)
Lemma int32_product_fits x y :
  in_int32 x -> in_int32 y -> - 2 ^ 63 <= x * y < 2 ^ 63.
Proof.
  unfold in_int32, INT32_MIN, INT32_MAX.
  change (2 ^ 63) with 9223372036854775808. intros Hx Hy. nia.
Qed.

Lemma mul_lane_shape a b i r :
  mul_lane a b i r =
    mk_vector_result
      (write_int32 (result r) i
         (let p := read_int32 a i * read_int32 b i in
          to_int32
            (if (p >? INT32_MAX) || (p <? INT32_MIN)
             then if p >? 0 then INT32_MAX else INT32_MIN
             else p)))
      (if (let p := read_int32 a i * read_int32 b i in
           (p >? INT32_MAX) || (p <? INT32_MIN))
       then Z.lor (flags r) (Z.shiftl 1 (Z.of_nat i)) else flags r)
      (cycles r).
Proof.
  unfold mul_lane. cbv zeta.
  rewrite to_int64_id
    by (apply int32_product_fits; apply read_int32_range).
  destruct ((_ >? INT32_MAX) || (_ <? INT32_MIN)); reflexivity.
Qed.

(** C6.  For every pair of input vectors and every lane [i] of the
    sixteen, with [p] the exact product of the two lane values:
    [p] is the 64-bit intermediate the code computes (nothing is lost in
    it); when [p] is representable in [int32_t] the result lane is [p]
    and bit [i] of the flags is clear; when [p] exceeds INT32_MAX (a
    positive product) the lane is INT32_MAX and bit [i] is set; when [p] is
    below INT32_MIN (a negative product) the lane is INT32_MIN and bit [i]
    is set. *)
Theorem vector_mul_int32_saturates (uninit : vector_result_t)
    (a b : alpha_ahb_vector_t) (i : nat) :
  length (data (result uninit)) = 64%nat ->
  (i < 16)%nat ->
  let r := vector_mul_int32 uninit a b in
  let p := read_int32 a i * read_int32 b i in
  to_int64 p = p /\
  (in_int32 p ->
     read_int32 (result r) i = p /\ Z.testbit (flags r) (Z.of_nat i) = false) /\
  (p > INT32_MAX ->
     0 < p /\ read_int32 (result r) i = INT32_MAX /\
     Z.testbit (flags r) (Z.of_nat i) = true) /\
  (p < INT32_MIN ->
     p < 0 /\ read_int32 (result r) i = INT32_MIN /\
     Z.testbit (flags r) (Z.of_nat i) = true).
Proof.
  intros Hlen Hi r p.
  pose proof (lane_loop_invariant _ _ (mul_lane a b) (mul_lane_shape a b)
                16 (mk_vector_result (result uninit) 0 4)
                ltac:(lia) Hlen eq_refl) as (_ & _ & Hval & _ & Hfl).
  subst r. unfold vector_mul_int32.
  specialize (Hval i Hi). specialize (Hfl (Z.of_nat i) ltac:(lia)).
  rewrite Nat2Z.id in Hfl. cbv zeta in Hval, Hfl. fold p in Hval, Hfl.
  destruct (Z.ltb_spec (Z.of_nat i) (Z.of_nat 16)); [ | lia].
  rewrite Hval, Hfl. cbn [andb].
  rewrite to_int32_id by apply to_int32_range.
  split.
  { apply to_int64_id, int32_product_fits; apply read_int32_range. }
  unfold in_int32, INT32_MAX, INT32_MIN in *.
  destruct (Z.gtb_spec p 2147483647); destruct (Z.ltb_spec p (-2147483648));
    cbn [orb]; try lia.
  - (* above the range *)
    destruct (Z.gtb_spec p 0); [ | lia].
    repeat split; intros; try lia; reflexivity.
  - (* below the range *)
    destruct (Z.gtb_spec p 0); [lia | ].
    repeat split; intros; try lia; reflexivity.
  - (* representable *)
    rewrite to_int32_id by (unfold in_int32, INT32_MAX, INT32_MIN; lia).
    repeat split; intros; lia.
Qed.

Lemma vector_mul_int32_saturates_witness :
  let r := vector_mul_int32 zero_result (lane0 65536) (lane0 65536) in
  read_int32 (result r) 0 = INT32_MAX /\ Z.testbit (flags r) 0 = true.
Proof.
  intros r.
  destruct (vector_mul_int32_saturates zero_result (lane0 65536)
              (lane0 65536) 0 eq_refl ltac:(lia)) as (_ & _ & Hbig & _).
  destruct Hbig as (_ & Hlane & Hbit); [reflexivity | ].
  split; [exact Hlane | exact Hbit].
Defined.

(** *** Addition *)

Lemma to_int32_add_period x k : to_int32 (x + k * 2 ^ 32) = to_int32 x.
Proof.
  unfold to_int32, to_int, to_uint. now rewrite Z_mod_plus_full.
Qed.

Lemma to_int32_above x :
  INT32_MAX < x <= 2 * INT32_MAX -> to_int32 x = x - 2 ^ 32.
Proof.
  unfold INT32_MAX. intros Hx.
  rewrite <- (to_int32_add_period x (-1)).
  replace (x + -1 * 2 ^ 32) with (x - 2 ^ 32) by lia.
  apply to_int32_id. unfold in_int32, INT32_MIN, INT32_MAX.
  change (2 ^ 32) with 4294967296. lia.
Qed.

Lemma to_int32_below x :
  2 * INT32_MIN <= x < INT32_MIN -> to_int32 x = x + 2 ^ 32.
Proof.
  unfold INT32_MIN. intros Hx.
  rewrite <- (to_int32_add_period x 1).
  replace (x + 1 * 2 ^ 32) with (x + 2 ^ 32) by lia.
  apply to_int32_id. unfold in_int32, INT32_MIN, INT32_MAX.
  change (2 ^ 32) with 4294967296. lia.
Qed.

(** The test of [vector_add_int32] against exact signed overflow: they
    agree on every pair of lane values but INT32_MIN + INT32_MIN, whose
    wrapped sum is 0. *)
Lemma add_overflow_test x y :
  in_int32 x -> in_int32 y ->
  ~ (x = INT32_MIN /\ y = INT32_MIN) ->
  let s := to_int32 (x + y) in
  ((x >? 0) && (y >? 0) && (s <? 0)) || ((x <? 0) && (y <? 0) && (s >? 0))
    = true
  <-> ~ in_int32 (x + y).
Proof.
  intros Hx Hy Hmin s. subst s.
  unfold in_int32, INT32_MIN, INT32_MAX in Hx, Hy, Hmin.
  destruct (Z_lt_le_dec INT32_MAX (x + y)) as [Hhi | Hhi];
    [ | destruct (Z_lt_le_dec (x + y) INT32_MIN) as [Hlo | Hlo] ].
  - rewrite to_int32_above by (unfold INT32_MAX in *; lia).
    unfold in_int32, INT32_MIN, INT32_MAX in *.
    change (2 ^ 32) with 4294967296.
    destruct (Z.gtb_spec x 0); destruct (Z.gtb_spec y 0);
      destruct (Z.ltb_spec (x + y - 4294967296) 0); try lia;
      cbn; split; intros; first [lia | reflexivity].
  - rewrite to_int32_below by (unfold INT32_MIN in *; lia).
    unfold in_int32, INT32_MIN, INT32_MAX in *.
    change (2 ^ 32) with 4294967296.
    destruct (Z.ltb_spec x 0); destruct (Z.ltb_spec y 0);
      destruct (Z.gtb_spec (x + y + 4294967296) 0); try lia;
      cbn; split; intros; first [lia | reflexivity].
  - rewrite to_int32_id by (unfold in_int32; lia).
    unfold in_int32, INT32_MIN, INT32_MAX in *.
    destruct (Z.gtb_spec x 0); destruct (Z.gtb_spec y 0);
      destruct (Z.ltb_spec x 0); destruct (Z.ltb_spec y 0);
      destruct (Z.ltb_spec (x + y) 0); destruct (Z.gtb_spec (x + y) 0);
      try lia; cbn; split; intros; first [lia | discriminate].
Qed.

Lemma add_lane_shape a b i r :
  add_lane a b i r =
    mk_vector_result
      (write_int32 (result r) i (to_int32 (read_int32 a i + read_int32 b i)))
      (if (let s := to_int32 (read_int32 a i + read_int32 b i) in
           ((read_int32 a i >? 0) && (read_int32 b i >? 0) && (s <? 0)) ||
           ((read_int32 a i <? 0) && (read_int32 b i <? 0) && (s >? 0)))
       then Z.lor (flags r) (Z.shiftl 1 (Z.of_nat i)) else flags r)
      (cycles r).
Proof.
  unfold add_lane. cbv zeta.
  destruct (_ || _); reflexivity.
Qed.

(** Lanes and flags of [vector_add_int32], for every pair of vectors. *)
Lemma vector_add_int32_lanes uninit a b :
  length (data (result uninit)) = 64%nat ->
  let r := vector_add_int32 uninit a b in
  cycles r = 2 /\
  (forall i, (i < 16)%nat ->
     read_int32 (result r) i = to_int32 (read_int32 a i + read_int32 b i)) /\
  (forall i, (i < 16)%nat ->
     ~ (read_int32 a i = INT32_MIN /\ read_int32 b i = INT32_MIN) ->
     (Z.testbit (flags r) (Z.of_nat i) = true <->
      ~ in_int32 (read_int32 a i + read_int32 b i))) /\
  (forall k, 16 <= k -> Z.testbit (flags r) k = false).
Proof.
  intros Hlen r. subst r. unfold vector_add_int32.
  pose proof (lane_loop_invariant _ _ (add_lane a b) (add_lane_shape a b)
                16 (mk_vector_result (result uninit) 0 2)
                ltac:(lia) Hlen eq_refl) as (_ & Hcyc & Hval & _ & Hfl).
  cbv zeta in Hval, Hfl.
  split; [exact Hcyc | split; [ | split]].
  - intros i Hi. rewrite Hval by exact Hi.
    apply to_int32_id, to_int32_range.
  - intros i Hi Hmin. rewrite Hfl by lia. rewrite Nat2Z.id.
    destruct (Z.ltb_spec (Z.of_nat i) (Z.of_nat 16)); [ | lia].
    cbn [andb].
    apply (add_overflow_test (read_int32 a i) (read_int32 b i));
      [apply read_int32_range | apply read_int32_range | exact Hmin].
  - intros k Hk. rewrite Hfl by lia.
    destruct (Z.ltb_spec k (Z.of_nat 16)); [lia | reflexivity].
Qed.

(** The run of [main]: lanes 1..16 plus lanes 2, 4, ..., 32. *)
Lemma vector_add_int32_main uninit :
  length (data (result uninit)) = 64%nat ->
  let r := vector_add_int32 uninit vec_a vec_b in
  lanes (result r) =
    [3; 6; 9; 12; 15; 18; 21; 24; 27; 30; 33; 36; 39; 42; 45; 48] /\
  flags r = 0.
Proof.
  intros Hlen r.
  destruct (vector_add_int32_lanes uninit vec_a vec_b Hlen)
    as (_ & Hval & Hfl & Hhigh).
  fold r in Hval, Hfl, Hhigh. split.
  - unfold lanes. cbn [map seq]. rewrite !Hval by lia.
    vm_compute. reflexivity.
  - apply Z.bits_inj'. intros k Hk.
    transitivity false; [ | symmetry; apply Z.bits_0].
    destruct (Z_lt_le_dec k 16) as [Hlt | Hge]; [ | now apply Hhigh].
    apply not_true_is_false. intros Hset.
    assert (Hc : exists i, (i < 16)%nat /\ k = Z.of_nat i)
      by (exists (Z.to_nat k); lia).
    destruct Hc as (i & Hi & ->).
    assert (Hin : in_int32 (read_int32 vec_a i + read_int32 vec_b i) /\
                  read_int32 vec_a i <> INT32_MIN).
    { do 16 (destruct i as [ | i];
             [split; [vm_compute; split; discriminate | vm_compute; discriminate] | ]).
      lia. }
    destruct Hin as [Hin Hne].
    apply (Hfl i Hi); [tauto | exact Hset | exact Hin].
Qed.

End VectorFacts.

(** ** Vector unit of the core: byte lanes *)

Lemma vector_read_set_same r v i x :
  (i < row_length r v)%nat ->
  vector_read (set_vector_byte r v i x) v i = x.
Proof.
  unfold row_length, vector_read, set_vector_byte. cbn [vector].
  rewrite list_lookup_alter_eq.
  destruct (vector r !! Z.to_nat v) as [row | ]; cbn; intros Hi; [ | lia].
  now rewrite list_lookup_insert_eq.
Qed.

Lemma vector_read_set_other r v i x v' i' :
  Z.to_nat v <> Z.to_nat v' \/ i <> i' ->
  vector_read (set_vector_byte r v i x) v' i' = vector_read r v' i'.
Proof.
  unfold vector_read, set_vector_byte. cbn [vector]. intros Hne.
  destruct (Nat.eq_dec (Z.to_nat v) (Z.to_nat v')) as [Heq | Hv].
  - rewrite <- Heq, list_lookup_alter_eq.
    destruct (vector r !! Z.to_nat v) as [row | ]; cbn; [ | reflexivity].
    rewrite list_lookup_insert_ne by lia. reflexivity.
  - now rewrite list_lookup_alter_ne.
Qed.

Lemma row_length_set r v i x v' :
  row_length (set_vector_byte r v i x) v' = row_length r v'.
Proof.
  unfold row_length, set_vector_byte. cbn [vector].
  destruct (Nat.eq_dec (Z.to_nat v) (Z.to_nat v')) as [Heq | Hv].
  - rewrite <- Heq, list_lookup_alter_eq.
    destruct (vector r !! Z.to_nat v) as [row | ]; cbn; [ | reflexivity].
    apply length_insert.
  - now rewrite list_lookup_alter_ne.
Qed.

(** The byte loops of [cpu_execute_vector], with the aliasing of [vd], [v1]
    and [v2]: iteration [k] reads index [k] only, before it writes it. *)
Lemma vector_byte_loop (op : Z -> Z -> Z) (inst : instruction_t)
    (r0 : register_file_t) (n : nat) :
  (n <= row_length r0 (rs1 inst))%nat ->
  let r := for_range n (vector_byte_step op inst) r0 in
  (forall v, row_length r v = row_length r0 v) /\
  length (vector r) = length (vector r0) /\
  gpr r = gpr r0 /\ fpr r = fpr r0 /\ pc r = pc r0 /\ sp r = sp r0 /\
  fp r = fp r0 /\ lr r = lr r0 /\ flags r = flags r0 /\
  (forall k, (k < n)%nat ->
     vector_read r (rs1 inst) k =
       op (vector_read r0 (rs1 inst) k) (vector_read r0 (rs2 inst) k)) /\
  (forall v k, (n <= k)%nat -> vector_read r v k = vector_read r0 v k) /\
  (forall v k, Z.to_nat v <> Z.to_nat (rs1 inst) ->
     vector_read r v k = vector_read r0 v k).
Proof.
  induction n as [ | n IH]; intros Hn.
  - cbn. repeat split; try reflexivity. intros k Hk. lia.
  - specialize (IH ltac:(lia)). cbv zeta in IH.
    destruct IH as (Hrow & Hlen & Hg & Hf & Hpc & Hsp & Hfp & Hlr & Hfl &
                    Hdone & Hrest & Hother).
    cbv zeta. rewrite for_range_S.
    set (r := for_range n (vector_byte_step op inst) r0) in *.
    unfold vector_byte_step.
    repeat split; cbn [gpr fpr pc sp fp lr flags set_vector_byte];
      try assumption.
    + intros v. now rewrite row_length_set.
    + cbn [vector set_vector_byte]. now rewrite length_alter.
    + intros k Hk. destruct (Nat.eq_dec k n) as [-> | Hne].
      * rewrite vector_read_set_same by (rewrite Hrow; lia).
        now rewrite !Hrest by lia.
      * rewrite vector_read_set_other by (right; lia). apply Hdone. lia.
    + intros v k Hk. rewrite vector_read_set_other by (right; lia).
      apply Hrest. lia.
    + intros v k Hv. rewrite vector_read_set_other by (left; lia).
      now apply Hother.
Qed.

Lemma wf_row_length r v :
  wf_register_file r -> 0 <= v < 32 -> row_length r v = 64%nat.
Proof.
  intros (_ & _ & _ & Hlen & Hrows & _) Hv. unfold row_length.
  destruct (lookup_lt_is_Some_2 (vector r) (Z.to_nat v)) as [row Hrow];
    [lia | ].
  rewrite Hrow. cbn.
  rewrite Forall_lookup in Hrows. now destruct (Hrows _ _ Hrow).
Qed.

(** VADD of the core: 64 byte additions modulo 256 into [vector[rs1]], no
    carry from one byte into the next, and no flags of any kind. *)
Lemma cpu_execute_vector_vadd core inst :
  wf_instruction inst -> wf_register_file (regs core) -> funct inst = 0x0 ->
  let core' := snd (cpu_execute_vector core inst) in
  fst (cpu_execute_vector core inst) = 0 /\
  (forall k, (k < 64)%nat ->
     vector_read (regs core') (rs1 inst) k =
       to_uint8 (vector_read (regs core) (rs1 inst) k +
                 vector_read (regs core) (rs2 inst) k)) /\
  (forall v k, Z.to_nat v <> Z.to_nat (rs1 inst) ->
     vector_read (regs core') v k = vector_read (regs core) v k) /\
  flags (regs core') = flags (regs core) /\
  gpr (regs core') = gpr (regs core).
Proof.
  intros (_ & _ & _ & Hrs1 & _) Hwf Hfn.
  apply in_uint4_bounds in Hrs1.
  unfold cpu_execute_vector. rewrite Hfn. cbn [fst snd regs set_regs].
  pose proof (vector_byte_loop (fun a b => to_uint8 (a + b)) inst (regs core) 64)
    as Hloop.
  rewrite wf_row_length in Hloop by (assumption || lia).
  destruct (Hloop ltac:(lia))
    as (_ & _ & Hg & _ & _ & _ & _ & _ & Hfl & Hdone & _ & Hother).
  repeat split; assumption.
Qed.

Lemma example_core_wf : wf_register_file (regs example_core).
Proof.
  unfold wf_register_file, example_core, in_uint.
  cbn [regs gpr fpr vector pc sp fp lr flags].
  rewrite !length_replicate.
  repeat first
    [apply Forall_replicate | apply length_replicate | reflexivity | lia | split].
Qed.

(** C5 as amended.  [vector_add_int32] works on the 16 lanes of 32 bits of
    its operands: for every pair of vectors each result lane is the
    two's-complement wrap-around sum of the two input lanes; bits 16 to 31
    of the flags word are clear; and for each lane [i] whose inputs are not
    both INT32_MIN, bit [i] is set exactly when the exact sum of the lane
    is outside the [int32_t] range.  Lanes 1..16 plus lanes 2, 4, ..., 32
    give 3, 6, ..., 48 with flags 0.  The VADD instruction of the core
    ([cpu_execute_vector]) adds the 64 bytes of [vector[rs1]] and
    [vector[rs2]] one by one modulo 256 and keeps no flags word: FLAGS is
    as before. *)
Theorem vector_add_lanes_and_core_bytes
    (uninit : VectorOps.vector_result_t) (a b : VectorOps.alpha_ahb_vector_t)
    (core : cpu_core_t) (inst : instruction_t) :
  length (VectorOps.data (VectorOps.result uninit)) = 64%nat ->
  wf_instruction inst -> wf_register_file (regs core) -> funct inst = 0x0 ->
  let r := VectorOps.vector_add_int32 uninit a b in
  let lane v i := VectorOps.read_int32 v i in
  let r_main := VectorOps.vector_add_int32 uninit VectorOps.vec_a VectorOps.vec_b in
  let core' := snd (cpu_execute_vector core inst) in
  (forall i, (i < 16)%nat ->
     lane (VectorOps.result r) i = to_int32 (lane a i + lane b i)) /\
  (forall i, (i < 16)%nat ->
     ~ (lane a i = INT32_MIN /\ lane b i = INT32_MIN) ->
     (Z.testbit (VectorOps.flags r) (Z.of_nat i) = true <->
      ~ in_int32 (lane a i + lane b i))) /\
  (forall k, 16 <= k -> Z.testbit (VectorOps.flags r) k = false) /\
  VectorOps.lanes (VectorOps.result r_main) =
    [3; 6; 9; 12; 15; 18; 21; 24; 27; 30; 33; 36; 39; 42; 45; 48] /\
  VectorOps.flags r_main = 0 /\
  fst (cpu_execute_vector core inst) = 0 /\
  (forall k, (k < 64)%nat ->
     vector_read (regs core') (rs1 inst) k =
       to_uint8 (vector_read (regs core) (rs1 inst) k +
                 vector_read (regs core) (rs2 inst) k)) /\
  flags (regs core') = flags (regs core).
Proof.
  intros Hlen Hinst Hwf Hfn r lane r_main core'.
  destruct (VectorFacts.vector_add_int32_lanes uninit a b Hlen)
    as (_ & Hval & Hfl & Hhigh).
  destruct (VectorFacts.vector_add_int32_main uninit Hlen) as (Hmain & Hmain0).
  destruct (cpu_execute_vector_vadd core inst Hinst Hwf Hfn)
    as (Hst & Hbytes & _ & Hflags & _).
  repeat split; try assumption.
  - now apply Hfl.
  - now apply Hfl.
Qed.

Lemma vector_add_lanes_and_core_bytes_witness :
  let r := VectorOps.vector_add_int32 VectorOps.zero_result
             (VectorOps.lane0 INT32_MAX) (VectorOps.lane0 1) in
  let inst := mk_instruction 0x6 0x0 0x2 0x1 0 0 in
  VectorOps.read_int32 (VectorOps.result r) 0 = INT32_MIN /\
  Z.testbit (VectorOps.flags r) 0 = true /\
  fst (cpu_execute_vector example_core inst) = 0.
Proof.
  intros r inst.
  assert (Hinst : wf_instruction inst)
    by (unfold wf_instruction, in_uint; cbn; lia).
  destruct (vector_add_lanes_and_core_bytes VectorOps.zero_result
              (VectorOps.lane0 INT32_MAX) (VectorOps.lane0 1)
              example_core inst eq_refl Hinst example_core_wf eq_refl)
    as (Hval & Hfl & _ & _ & _ & Hst & _).
  subst r. split; [ | split; [ | exact Hst]].
  - rewrite (Hval 0%nat) by lia. reflexivity.
  - apply (Hfl 0%nat); [lia | | ].
    + intros [_ H1]. vm_compute in H1. discriminate H1.
    + intros [_ Hle]. vm_compute in Hle. apply Hle. reflexivity.
Defined.

(** C5 as stated fails.  In the core, VADD on registers whose lane 0 holds
    255 and 1 leaves 0 in lane 0, not 256: the carry out of the low byte
    is dropped.  And in [vector_add_int32] the lane INT32_MIN + INT32_MIN
    overflows, wraps to 0, and its flag bit stays clear. *)
Lemma vector_add_claim_fails :
  (let core :=
     with_vector
       (with_vector example_core 1 (VectorOps.data (VectorOps.lane0 255)))
       2 (VectorOps.data (VectorOps.lane0 1)) in
   let inst := mk_instruction 0x6 0x0 0x2 0x1 0 0 in
   let core' := snd (cpu_execute_vector core inst) in
   fst (cpu_execute_vector core inst) = 0 /\
   VectorOps.read_int32 (vreg core 1) 0 = 255 /\
   VectorOps.read_int32 (vreg core 2) 0 = 1 /\
   to_int32 (255 + 1) = 256 /\
   VectorOps.read_int32 (vreg core' 1) 0 = 0) /\
  (let r := VectorOps.vector_add_int32 VectorOps.zero_result
              (VectorOps.lane0 INT32_MIN) (VectorOps.lane0 INT32_MIN) in
   VectorOps.read_int32 (VectorOps.lane0 INT32_MIN) 0 = INT32_MIN /\
   ~ in_int32 (INT32_MIN + INT32_MIN) /\
   VectorOps.read_int32 (VectorOps.result r) 0 = 0 /\
   Z.testbit (VectorOps.flags r) 0 = false).
Proof.
  split.
  - repeat split; vm_compute; reflexivity.
  - repeat split; try (vm_compute; reflexivity).
    intros [Hlo _]. vm_compute in Hlo. apply Hlo. reflexivity.
Qed.

(** ** Dense layer *)

Module NpuFacts.
Import Npu.

(** The counted loop over the processing elements runs
    [min(pe_per_output, input_size)] times, whatever fuel remains. *)
Lemma for_while_from {S : Type} (P N : Z) (body : Z -> S -> S) :
  forall (fuel : nat) (i : Z) (s : S),
    0 <= i -> i + Z.of_nat fuel = P ->
    for_while fuel (fun k => (k <? P) && (k <? N)) body i s =
      fold_left (fun st k => body (Z.of_nat k) st)
        (seq (Z.to_nat i) (Z.to_nat (Z.min P N) - Z.to_nat i)) s.
Proof.
  induction fuel as [ | fuel IH]; intros i s Hi Hsum.
  - replace (Z.to_nat (Z.min P N) - Z.to_nat i)%nat with 0%nat by lia.
    reflexivity.
  - cbn [for_while].
    destruct (Z.ltb_spec i P); [ | lia]. cbn [andb].
    destruct (Z.ltb_spec i N) as [HiN | HiN].
    + rewrite IH by lia.
      replace (Z.to_nat (Z.min P N) - Z.to_nat i)%nat
        with (Datatypes.S (Z.to_nat (Z.min P N) - Z.to_nat (i + 1)))%nat by lia.
      cbn [seq fold_left]. rewrite Z2Nat.id by lia.
      replace (Z.to_nat (i + 1)) with (Datatypes.S (Z.to_nat i)) by lia.
      reflexivity.
    + replace (Z.to_nat (Z.min P N) - Z.to_nat i)%nat with 0%nat by lia.
      reflexivity.
Qed.

Lemma for_while_count {S : Type} (P N : Z) (body : Z -> S -> S) (s : S) :
  0 <= P ->
  for_while (Z.to_nat P) (fun k => (k <? P) && (k <? N)) body 0 s =
    for_range (Z.to_nat (Z.min P N)) (fun k => body (Z.of_nat k)) s.
Proof.
  intros HP. rewrite (for_while_from P N body (Z.to_nat P) 0 s) by lia.
  unfold for_range. now rewrite Nat.sub_0_r.
Qed.

Section DenseForward.

Variable sigmoid_fixed : Z -> Z.
Variable tanh_fixed : Z -> Z.
Variable layer : npu_layer_t.
Variable input : list Z.

Hypothesis input_size_nonneg : 0 <= input_size layer.
Hypothesis output_size_pos : 0 < output_size layer.
Hypothesis weights_addressable :
  output_size layer * input_size layer < 2 ^ 32.

(** The running sum after [m] processing elements of neuron [j]. *)
Lemma pe_loop_sum (j m : nat) (pes : list npu_pe_t) :
  (j < Z.to_nat (output_size layer))%nat ->
  (m <= Z.to_nat (input_size layer))%nat ->
  snd (for_range m
         (fun k => pe_step layer input (pe_budget layer) (Z.of_nat j) (Z.of_nat k))
         (pes, 0)) =
    fold_left
      (fun acc i =>
         to_int32
           (acc +
            to_int32
              (default 0
                 (weights layer !! (j * Z.to_nat (input_size layer) + i)%nat) *
               default 0 (input !! i))))
      (seq 0 m) 0.
Proof.
  intros Hj. induction m as [ | m IH]; intros Hm; [reflexivity | ].
  rewrite for_range_S, seq_S, fold_left_app. cbn [fold_left Nat.add].
  rewrite <- IH by lia.
  destruct (for_range m _ (pes, 0)) as [pes' sum]. cbn [snd].
  unfold pe_step.
  destruct (Z.ltb_spec (Z.of_nat m) (input_size layer)); [ | lia].
  cbn [snd]. rewrite Nat2Z.id.
  assert (Hidx :
    Z.to_nat (to_uint32 (Z.of_nat j * input_size layer + Z.of_nat m)) =
    (j * Z.to_nat (input_size layer) + m)%nat).
  { unfold to_uint32. rewrite to_uint_id by nia. nia. }
  now rewrite Hidx.
Qed.

Local Abbreviation neuron_value :=
  (neuron_value sigmoid_fixed tanh_fixed layer input).

Lemma pe_budget_pos : 0 < pe_budget layer.
Proof.
  unfold pe_budget. cbv zeta.
  destruct (Z.eqb_spec (NPU_PE_COUNT / output_size layer) 0); [lia | ].
  pose proof (Z.div_pos NPU_PE_COUNT (output_size layer)) as Hpos.
  unfold NPU_PE_COUNT in *. lia.
Qed.

Lemma output_step_value (j : nat) (pes : list npu_pe_t) (output : list Z) :
  (j < Z.to_nat (output_size layer))%nat ->
  snd (output_step sigmoid_fixed tanh_fixed layer input (pe_budget layer) j
         (pes, output)) =
    <[j := neuron_value j]> output.
Proof.
  intros Hj. unfold output_step.
  pose proof pe_budget_pos as Hb.
  rewrite for_while_count by lia.
  pose proof (pe_loop_sum j
                (Z.to_nat (Z.min (pe_budget layer) (input_size layer)))
                pes Hj ltac:(lia)) as Hsum.
  destruct (for_range _ _ (pes, 0)) as [pes' sum]. cbn [snd] in *.
  subst sum. reflexivity.
Qed.

Lemma output_loop (n : nat) (pes : list npu_pe_t) (output : list Z) :
  (n <= Z.to_nat (output_size layer))%nat ->
  (n <= length output)%nat ->
  let out :=
    snd (for_range n
           (output_step sigmoid_fixed tanh_fixed layer input (pe_budget layer))
           (pes, output)) in
  length out = length output /\
  (forall j, (j < n)%nat -> out !! j = Some (neuron_value j)) /\
  (forall j, (n <= j)%nat -> out !! j = output !! j).
Proof.
  induction n as [ | n IH]; intros Hn Hlen.
  - cbn. repeat split; try reflexivity. intros j Hj. lia.
  - specialize (IH ltac:(lia) ltac:(lia)). cbv zeta in IH.
    destruct IH as (IHlen & IHdone & IHrest).
    cbv zeta. rewrite for_range_S.
    destruct (for_range n _ (pes, output)) as [pes' out'].
    cbn [snd] in IHlen, IHdone, IHrest.
    rewrite output_step_value by lia.
    split; [ | split].
    + now rewrite length_insert.
    + intros j Hj. destruct (Nat.eq_dec j n) as [-> | Hne].
      * apply list_lookup_insert_eq. lia.
      * rewrite list_lookup_insert_ne by lia. apply IHdone. lia.
    + intros j Hj. rewrite list_lookup_insert_ne by lia. apply IHrest. lia.
Qed.

(** What [npu_dense_forward] computes, for every layer: the call returns,
    and output neuron [j] holds the activation of the sum over the first
    [min(pe_per_output, input_size)] inputs only. *)
Lemma npu_dense_forward_outputs (npu : npu_controller_t) (output : list Z) :
  (Z.to_nat (output_size layer) <= length output)%nat ->
  exists npu' out,
    npu_dense_forward sigmoid_fixed tanh_fixed npu layer input output
      = Some (npu', out) /\
    length out = length output /\
    (forall j, (j < Z.to_nat (output_size layer))%nat ->
       out !! j = Some (neuron_value j)) /\
    (forall j, (Z.to_nat (output_size layer) <= j)%nat ->
       out !! j = output !! j).
Proof.
  intros Hlen. unfold npu_dense_forward.
  destruct (Z.eqb_spec (output_size layer) 0); [lia | ].
  fold (pe_budget layer).
  pose proof (output_loop (Z.to_nat (output_size layer))
                (for_range (Z.to_nat NPU_PE_COUNT) (fun i => alter reset_pe i)
                   (processing_elements npu))
                output ltac:(lia) Hlen) as Hloop.
  cbv zeta in Hloop.
  destruct (for_range (Z.to_nat (output_size layer)) _ _) as [pes' out].
  cbn [snd] in Hloop. eauto.
Qed.

(** When the processing elements of a neuron cover the whole input, the
    neuron holds the activation of the full dot product plus bias. *)
Lemma neuron_value_full (j : nat) :
  input_size layer <= pe_budget layer ->
  neuron_value j =
    npu_apply_activation sigmoid_fixed tanh_fixed
      (to_int16 (dense_sum layer input j)) (activation layer).
Proof.
  intros Hfit. unfold Npu.neuron_value, dense_sum.
  now rewrite Z.min_r by exact Hfit.
Qed.

End DenseForward.

(** The scenario of the specification: input [1, 1], identity weights,
    zero bias, ReLU.  Two inputs fit the 512 processing elements each
    output neuron gets, and the output is [1, 1]. *)
Lemma dense_forward_identity sigmoid_fixed tanh_fixed :
  snd <$> npu_dense_forward sigmoid_fixed tanh_fixed npu_init identity_layer
            [1; 1] [0; 0]
  = Some [1; 1].
Proof. vm_compute. reflexivity. Qed.

(** C8 (the code does not do what the claim states).  A dense layer of 512
    output neurons over 3 inputs, all weights 1, zero bias, ReLU, on the
    input [1, 1, 1]: each neuron gets [1024 / 512 = 2] processing
    elements, the loop stops after two inputs, and every output is 2; the
    sum over the entire input, which the claim describes, is 3. *)
Theorem dense_forward_drops_inputs :
  forall sigmoid_fixed tanh_fixed : Z -> Z,
    snd <$> npu_dense_forward sigmoid_fixed tanh_fixed npu_init wide_layer
              [1; 1; 1] (replicate 512 0)
    = Some (replicate 512 2) /\
    npu_apply_activation sigmoid_fixed tanh_fixed
      (to_int16 (dense_sum wide_layer [1; 1; 1] 0)) ACTIVATION_RELU = 3.
Proof.
  intros sigmoid_fixed tanh_fixed. split; vm_compute; reflexivity.
Qed.

End NpuFacts.

(** * Further properties of the core *)

(** ** Dispatcher *)

Lemma cpu_decode_status inst type :
  fst (cpu_decode_instruction inst type) = 0 \/
  fst (cpu_decode_instruction inst type) = -1.
Proof.
  unfold cpu_decode_instruction.
  repeat match goal with
         | |- context [match ?x with _ => _ end] => destruct x
         end; cbn; auto.
Qed.

Lemma cpu_execute_arithmetic_cases core inst :
  cpu_execute_arithmetic core inst = (-1, core) \/
  exists core', cpu_execute_arithmetic core inst = (0, core').
Proof.
  unfold cpu_execute_arithmetic.
  destruct (arithmetic_result _ _ _); eauto.
Qed.

Lemma cpu_execute_floating_point_cases core inst :
  cpu_execute_floating_point core inst = (-1, core) \/
  exists core', cpu_execute_floating_point core inst = (0, core').
Proof.
  unfold cpu_execute_floating_point.
  destruct (float_result _ _ _); eauto.
Qed.

Lemma cpu_execute_vector_cases core inst :
  cpu_execute_vector core inst = (-1, core) \/
  exists core', cpu_execute_vector core inst = (0, core').
Proof.
  unfold cpu_execute_vector.
  repeat match goal with
         | |- context [match ?x with _ => _ end] => destruct x
         end; eauto.
Qed.

Lemma cpu_execute_ai_ml_cases core inst :
  cpu_execute_ai_ml core inst = (-1, []) \/
  exists out, cpu_execute_ai_ml core inst = (0, out).
Proof.
  unfold cpu_execute_ai_ml.
  repeat match goal with
         | |- context [match ?x with _ => _ end] => destruct x
         end; eauto.
Qed.

Lemma cpu_execute_mimd_cases core inst :
  cpu_execute_mimd core inst = (-1, []) \/
  exists out, cpu_execute_mimd core inst = (0, out).
Proof.
  unfold cpu_execute_mimd.
  repeat match goal with
         | |- context [match ?x with _ => _ end] => destruct x
         end; eauto.
Qed.

(** X1.  Whatever the instruction, [cpu_execute_instruction] returns 0 or
    -1, and a failure is atomic: with status -1 the core is exactly the
    core before and nothing was printed - whether the decoder, the
    dispatcher or an execution unit refused. *)
Theorem cpu_execute_instruction_atomic (uninit : instruction_type_t)
    (core : cpu_core_t) (inst : instruction_t) :
  let '(status, core', out) := cpu_execute_instruction uninit core inst in
  (status = 0 \/ status = -1) /\
  (status = -1 -> core' = core /\ out = []).
Proof.
  unfold cpu_execute_instruction.
  destruct (cpu_decode_status inst uninit) as [Hst | Hst];
    destruct (cpu_decode_instruction inst uninit) as [st ty];
    cbn [fst] in Hst; subst st; cbn [Z.eqb negb]; [ | auto].
  destruct ty;
    try (split; [right; reflexivity | auto]);
    first
      [ destruct (cpu_execute_arithmetic_cases core inst) as [-> | [c' ->]]
      | destruct (cpu_execute_floating_point_cases core inst) as [-> | [c' ->]]
      | destruct (cpu_execute_vector_cases core inst) as [-> | [c' ->]]
      | destruct (cpu_execute_ai_ml_cases core inst) as [-> | [c' ->]]
      | destruct (cpu_execute_mimd_cases core inst) as [-> | [c' ->]] ];
    split; auto; intros; discriminate.
Qed.

(** X2.  No instruction of the load, store or branch families (opcodes
    0x1, 0x2, 0x3) is ever executed: whatever its funct and operands,
    [cpu_execute_instruction] returns -1, prints nothing and leaves the
    core as it was - also for the pairs the decoder accepts (LOAD, STORE,
    BEQ ... BGE). *)
Theorem memory_and_branch_never_execute (uninit : instruction_type_t)
    (core : cpu_core_t) (inst : instruction_t) :
  opcode inst = 0x1 \/ opcode inst = 0x2 \/ opcode inst = 0x3 ->
  cpu_execute_instruction uninit core inst = (-1, core, []).
Proof.
  intros Hop. unfold cpu_execute_instruction, cpu_decode_instruction.
  destruct Hop as [-> | [-> | ->]];
    repeat match goal with
           | |- context [match funct inst with _ => _ end] =>
               destruct (funct inst)
           | |- context [match ?p with xH => _ | _ => _ end] => destruct p
           end; reflexivity.
Qed.

Lemma memory_and_branch_never_execute_witness :
  cpu_decode_instruction (mk_instruction 0x1 0x9 0x2 0x1 0 0) INST_NOP
    = (0, INST_LOAD) /\
  cpu_execute_instruction INST_NOP example_core
    (mk_instruction 0x1 0x9 0x2 0x1 0 0) = (-1, example_core, []) /\
  cpu_execute_instruction INST_NOP example_core
    (mk_instruction 0x3 0x0 0x2 0x1 0 0) = (-1, example_core, []).
Proof.
  split; [reflexivity | split].
  - apply memory_and_branch_never_execute. left. reflexivity.
  - apply memory_and_branch_never_execute. right. right. reflexivity.
Defined.

(** ** The simulation loop *)

Lemma gpr_read_set_gpr_ne r i j x :
  Z.to_nat i <> Z.to_nat j -> gpr_read (set_gpr r i x) j = gpr_read r j.
Proof.
  intros Hne. unfold gpr_read, set_gpr. cbn [gpr].
  now rewrite list_lookup_insert_ne.
Qed.

(** One turn: the fabricated [ADD R1, R2] always executes. *)
Lemma cpu_cycle_add uninit core :
  cpu_cycle uninit core =
    (0,
     let r := set_pc (regs core) (to_uint64 (pc (regs core) + 8)) in
     let sum := to_uint64 (gpr_read r 1 + gpr_read r 2) in
     set_regs core
       (set_flags (set_gpr r 1 sum) (update_flags (flags r) sum))).
Proof. reflexivity. Qed.

(** X3.  [n] turns of the fetch-execute loop of [main] on a well-formed
    core all succeed and amount to this: PC has advanced by [8 * n], R1
    holds R1 + n * R2 (both modulo [2^64]), R2 is unchanged, and after at
    least one turn the Zero flag tells whether R1 is now zero. *)
Theorem cpu_simulate_adds (uninit : instruction_type_t) (n : nat)
    (core : cpu_core_t) :
  wf_register_file (regs core) ->
  let core' := cpu_simulate uninit n core in
  let r1 := gpr_read (regs core) 1 in
  let r2 := gpr_read (regs core) 2 in
  fst (cpu_cycle uninit core') = 0 /\
  pc (regs core') = to_uint64 (pc (regs core) + 8 * Z.of_nat n) /\
  gpr_read (regs core') 1 = to_uint64 (r1 + Z.of_nat n * r2) /\
  gpr_read (regs core') 2 = r2 /\
  length (gpr (regs core')) = 64%nat /\
  ((0 < n)%nat ->
   (zero_flag (regs core') = true <-> gpr_read (regs core') 1 = 0)).
Proof.
  intros Hwf core' r1 r2. subst core'.
  split; [now rewrite cpu_cycle_add | ].
  induction n as [ | n IH].
  - cbn [cpu_simulate for_range seq fold_left]. unfold to_uint64.
    replace (pc (regs core) + 8 * Z.of_nat 0) with (pc (regs core)) by lia.
    replace (r1 + Z.of_nat 0 * r2) with r1 by lia.
    rewrite (to_uint_id 64 (pc (regs core))) by apply Hwf.
    rewrite (to_uint_id 64 r1) by (now apply gpr_read_range).
    destruct Hwf as (Hlen & _).
    split; [reflexivity | split; [reflexivity | split; [reflexivity | ]]].
    split; [exact Hlen | lia].
  - destruct IH as (IHpc & IH1 & IH2 & IHlen & _).
    unfold cpu_simulate in *. rewrite for_range_S.
    set (c := for_range n _ core) in *.
    rewrite cpu_cycle_add. cbn [snd]. cbv zeta.
    set (r := set_pc (regs c) (to_uint64 (pc (regs c) + 8))).
    assert (E1 : gpr_read r 1 = to_uint64 (r1 + Z.of_nat n * r2)) by exact IH1.
    assert (E2 : gpr_read r 2 = r2) by exact IH2.
    assert (Elen : length (gpr r) = 64%nat) by exact IHlen.
    rewrite E1, E2.
    set (sum := to_uint64 (to_uint64 (r1 + Z.of_nat n * r2) + r2)).
    assert (Hsum : sum = to_uint64 (r1 + Z.of_nat (S n) * r2)).
    { unfold sum, to_uint64, to_uint. rewrite Zplus_mod_idemp_l.
      f_equal. lia. }
    cbn [regs set_regs].
    set (fl := update_flags (flags r) sum).
    assert (Hget1 : gpr_read (set_flags (set_gpr r 1 sum) fl) 1 = sum).
    { change (gpr_read (set_gpr r 1 sum) 1 = sum).
      apply gpr_read_set_gpr. rewrite Elen. lia. }
    split; [ | split; [ | split; [ | split]]].
    + change (to_uint64 (pc (regs c) + 8) =
              to_uint64 (pc (regs core) + 8 * Z.of_nat (S n))).
      rewrite IHpc. unfold to_uint64, to_uint. rewrite Zplus_mod_idemp_l.
      f_equal. lia.
    + rewrite Hget1. exact Hsum.
    + change (gpr_read (set_gpr r 1 sum) 2 = r2).
      rewrite gpr_read_set_gpr_ne by lia. exact E2.
    + change (length (<[Z.to_nat 1 := sum]> (gpr r)) = 64%nat).
      now rewrite length_insert.
    + intros _. rewrite Hget1. unfold zero_flag.
      change (Z.testbit fl 0 = true <-> sum = 0). unfold fl.
      rewrite update_flags_bit by lia. cbn. apply Z.eqb_eq.
Qed.

Lemma cpu_simulate_adds_witness :
  let core := with_gpr (with_gpr example_core 1 10) 2 3 in
  let core' := cpu_simulate INST_NOP 5 core in
  pc (regs core') = 0x1028 /\ gpr_read (regs core') 1 = 25.
Proof.
  intros core core'.
  assert (Hwf : wf_register_file (regs core)).
  { unfold core, with_gpr. cbn [regs set_regs].
    destruct example_core_wf as (H1 & H2 & H3).
    unfold wf_register_file, set_gpr. cbn [gpr fpr vector pc sp fp lr flags].
    rewrite !length_insert.
    split; [exact H1 | split; [ | exact H3]].
    repeat apply Forall_insert; [exact H2 | | ]; unfold in_uint; lia. }
  destruct (cpu_simulate_adds INST_NOP 5 core Hwf) as (_ & Hpc & Hr1 & _).
  unfold core'. split; [rewrite Hpc | rewrite Hr1]; reflexivity.
Defined.

(** ** Vector unit of the core, all four operations *)

Lemma vector_byte_op_range fn a b : in_uint 8 (vector_byte_op fn a b).
Proof.
  pose proof (fun v => to_uint_range 8 v ltac:(lia)) as Hwrap.
  assert (H0 : in_uint 8 0) by (unfold in_uint; lia).
  unfold vector_byte_op.
  repeat match goal with
         | |- context [match ?x with _ => _ end] => destruct x
         end; first [apply Hwrap | exact H0].
Qed.

Lemma cpu_execute_vector_loop core inst :
  0 <= funct inst <= 3 ->
  cpu_execute_vector core inst =
    (0, set_regs core
          (for_range 64 (vector_byte_step (vector_byte_op (funct inst)) inst)
             (regs core))).
Proof.
  intros Hfn. unfold cpu_execute_vector.
  assert (Hc : funct inst = 0 \/ funct inst = 1 \/ funct inst = 2 \/
               funct inst = 3) by lia.
  destruct Hc as [-> | [-> | [-> | ->]]]; reflexivity.
Qed.

(** X4.  The four vector instructions of the core (VADD, VSUB, VMUL, VDIV)
    never fail on a well-formed core.  Byte [k] of [vector[rs1]] becomes
    the sum, difference or product modulo 256, or the quotient, of the
    bytes [k] the two source registers held before - also when [rs1] and
    [rs2] name the same register; a zero divisor byte of VDIV gives the
    byte 0 instead of an error.  The other vector registers, the general
    registers and FLAGS are unchanged. *)
Theorem cpu_execute_vector_bytes (core : cpu_core_t) (inst : instruction_t) :
  wf_instruction inst -> wf_register_file (regs core) ->
  0 <= funct inst <= 3 ->
  let core' := snd (cpu_execute_vector core inst) in
  fst (cpu_execute_vector core inst) = 0 /\
  (forall k, (k < 64)%nat ->
     vector_read (regs core') (rs1 inst) k =
       vector_byte_op (funct inst)
         (vector_read (regs core) (rs1 inst) k)
         (vector_read (regs core) (rs2 inst) k)) /\
  (forall k, (k < 64)%nat -> funct inst = 3 ->
     vector_read (regs core) (rs2 inst) k = 0 ->
     vector_read (regs core') (rs1 inst) k = 0) /\
  (forall v k, Z.to_nat v <> Z.to_nat (rs1 inst) ->
     vector_read (regs core') v k = vector_read (regs core) v k) /\
  gpr (regs core') = gpr (regs core) /\
  fpr (regs core') = fpr (regs core) /\
  flags (regs core') = flags (regs core) /\
  pc (regs core') = pc (regs core).
Proof.
  intros (_ & _ & _ & Hrs1 & _) Hwf Hfn core'. subst core'.
  apply in_uint4_bounds in Hrs1.
  rewrite cpu_execute_vector_loop by exact Hfn. cbn [fst snd regs set_regs].
  pose proof (vector_byte_loop (vector_byte_op (funct inst)) inst (regs core) 64)
    as Hloop.
  rewrite wf_row_length in Hloop by (assumption || lia).
  destruct (Hloop ltac:(lia))
    as (_ & _ & Hg & Hf & Hpc & _ & _ & _ & Hfl & Hdone & _ & Hother).
  split; [reflexivity | ].
  split; [exact Hdone | ].
  split.
  { intros k Hk H3 Hz. rewrite Hdone by exact Hk. rewrite H3, Hz. reflexivity. }
  split; [exact Hother | ]. auto.
Qed.

Lemma cpu_execute_vector_bytes_witness :
  let core := with_vector example_core 1 (VectorOps.data VectorOps.vec_a) in
  let core' := snd (cpu_execute_vector core vsub_self) in
  vector_read (regs core) 1 0 = 1 /\ vector_read (regs core') 1 0 = 0.
Proof.
  intros core core'.
  assert (Hinst : wf_instruction vsub_self)
    by (unfold wf_instruction, in_uint; cbn; lia).
  assert (Hwf : wf_register_file (regs core)).
  { destruct example_core_wf as (H1 & H2 & H3 & H4 & H5 & H6).
    unfold core, with_vector, wf_register_file.
    cbn [regs set_regs gpr fpr vector pc sp fp lr flags].
    rewrite length_insert.
    split; [exact H1 | split; [exact H2 | split; [exact H3 | ]]].
    split; [exact H4 | split; [ | exact H6]].
    apply Forall_insert; [exact H5 | ].
    split; [reflexivity | ].
    apply (bool_decide_unpack _). vm_compute. reflexivity. }
  destruct (cpu_execute_vector_bytes core vsub_self Hinst Hwf ltac:(cbn; lia))
    as (_ & Hbytes & _).
  split; [reflexivity | ].
  unfold core'.
  change (vector_read (regs (snd (cpu_execute_vector core vsub_self)))
            (rs1 vsub_self) 0 = 0).
  rewrite (Hbytes 0%nat) by lia. reflexivity.
Defined.

(** ** Well-formedness is an invariant of execution *)

Lemma set_vector_byte_wf r v i x :
  wf_register_file r -> in_uint 8 x -> wf_register_file (set_vector_byte r v i x).
Proof.
  intros (H1 & H2 & H3 & H4 & H5 & H6) Hx.
  unfold wf_register_file, set_vector_byte.
  cbn [gpr fpr vector pc sp fp lr flags]. rewrite length_alter.
  split; [exact H1 | split; [exact H2 | split; [exact H3 | ]]].
  split; [exact H4 | split; [ | exact H6]].
  apply Forall_alter; [exact H5 | ].
  intros row _ [Hlen Hrow]. split.
  - now rewrite length_insert.
  - now apply Forall_insert.
Qed.

Lemma vector_byte_loop_wf op inst r n :
  (forall a b, in_uint 8 (op a b)) ->
  wf_register_file r ->
  wf_register_file (for_range n (vector_byte_step op inst) r).
Proof.
  intros Hop Hwf. induction n as [ | n IH]; [exact Hwf | ].
  rewrite for_range_S. unfold vector_byte_step at 1.
  apply set_vector_byte_wf; [exact IH | apply Hop].
Qed.

Lemma cpu_execute_vector_wf core inst :
  wf_register_file (regs core) ->
  wf_register_file (regs (snd (cpu_execute_vector core inst))).
Proof.
  intros Hwf.
  pose proof (fun v => to_uint_range 8 v ltac:(lia)) as Hwrap.
  unfold cpu_execute_vector.
  repeat match goal with
         | |- context [match ?x with _ => _ end] => destruct x
         end; try exact Hwf; cbn [snd regs set_regs];
    apply vector_byte_loop_wf; try exact Hwf; intros a b;
    try apply Hwrap.
  destruct (negb (b =? 0)); [apply Hwrap | unfold in_uint; lia].
Qed.

Lemma cpu_execute_floating_point_wf core inst :
  wf_register_file (regs core) ->
  wf_register_file (regs (snd (cpu_execute_floating_point core inst))).
Proof.
  intros Hwf. unfold cpu_execute_floating_point.
  destruct (float_result _ _ _) as [res | ]; [ | exact Hwf].
  destruct Hwf as (H1 & H2 & H3 & H4).
  unfold wf_register_file. cbn [snd regs set_regs set_fpr gpr fpr vector pc sp fp lr flags].
  rewrite length_insert. auto.
Qed.

(** X5.  Execution keeps the register file well formed: whatever the
    instruction and whether it succeeds or not, after
    [cpu_execute_instruction] there are still 64 general registers and a
    FLAGS word holding 64-bit values, 64 floating-point registers, and 32
    vector registers of 64 bytes each. *)
Theorem cpu_execute_instruction_wf (uninit : instruction_type_t)
    (core : cpu_core_t) (inst : instruction_t) :
  wf_register_file (regs core) ->
  wf_register_file
    (regs (snd (fst (cpu_execute_instruction uninit core inst)))).
Proof.
  intros Hwf. unfold cpu_execute_instruction.
  destruct (cpu_decode_instruction inst uninit) as [st ty].
  destruct (negb (st =? 0)); [exact Hwf | ].
  pose proof (cpu_execute_arithmetic_wf core inst Hwf) as Ha.
  pose proof (cpu_execute_floating_point_wf core inst Hwf) as Hf.
  pose proof (cpu_execute_vector_wf core inst Hwf) as Hv.
  destruct ty; try exact Hwf;
    first
      [ destruct (cpu_execute_arithmetic core inst); exact Ha
      | destruct (cpu_execute_floating_point core inst); exact Hf
      | destruct (cpu_execute_vector core inst); exact Hv
      | destruct (cpu_execute_ai_ml core inst); exact Hwf
      | destruct (cpu_execute_mimd core inst); exact Hwf ].
Qed.

Lemma cpu_execute_instruction_wf_witness :
  let inst := mk_instruction 0x0 0x2 0x2 0x1 0 0 in
  let core := with_gpr (with_gpr example_core 1 (2 ^ 63)) 2 6 in
  let core' := snd (fst (cpu_execute_instruction INST_NOP core inst)) in
  gpr_read (regs core') 1 = 0 /\ in_uint 64 (flags (regs core')).
Proof.
  intros inst core core'.
  assert (Hwf : wf_register_file (regs core)).
  { unfold core, with_gpr. cbn [regs set_regs].
    destruct example_core_wf as (H1 & H2 & H3).
    unfold wf_register_file, set_gpr. cbn [gpr fpr vector pc sp fp lr flags].
    rewrite !length_insert.
    split; [exact H1 | split; [ | exact H3]].
    repeat apply Forall_insert; [exact H2 | | ]; unfold in_uint; lia. }
  pose proof (cpu_execute_instruction_wf INST_NOP core inst Hwf) as Hwf'.
  split; [reflexivity | apply Hwf'].
Defined.

(** ** Integer unit: what the operations compute *)

Lemma cpu_execute_arithmetic_writes core inst r :
  wf_instruction inst -> length (gpr (regs core)) = 64%nat ->
  arithmetic_result (funct inst) (gpr_read (regs core) (rs1 inst))
    (gpr_read (regs core) (rs2 inst)) = Some r ->
  fst (cpu_execute_arithmetic core inst) = 0 /\
  gpr_read (regs (snd (cpu_execute_arithmetic core inst))) (rs1 inst) = r /\
  gpr (regs (snd (cpu_execute_arithmetic core inst))) =
    <[Z.to_nat (rs1 inst) := r]> (gpr (regs core)).
Proof.
  intros (_ & _ & _ & Hrs1 & _) Hlen Hres.
  apply in_uint4_bounds in Hrs1.
  unfold cpu_execute_arithmetic. rewrite Hres. cbn [fst snd regs set_regs].
  split; [reflexivity | split; [ | reflexivity]].
  change (gpr_read (set_gpr (regs core) (rs1 inst) r) (rs1 inst) = r).
  apply gpr_read_set_gpr. rewrite Hlen. lia.
Qed.

Lemma gpr_read_lookup r i :
  (Z.to_nat i < length (gpr r))%nat -> gpr r !! Z.to_nat i = Some (gpr_read r i).
Proof.
  intros Hi. unfold gpr_read.
  destruct (lookup_lt_is_Some_2 (gpr r) (Z.to_nat i) Hi) as [x ->].
  reflexivity.
Qed.

(** X6.  ADD followed by SUB with the same two distinct registers is a
    round trip on the general registers: both succeed, and the whole
    register array is back to what it was before the ADD (wrap-around of
    the sum included). *)
Theorem add_then_sub_restores (core : cpu_core_t) (add sub : instruction_t) :
  wf_instruction add -> wf_instruction sub ->
  wf_register_file (regs core) ->
  funct add = 0x0 -> funct sub = 0x1 ->
  rs1 sub = rs1 add -> rs2 sub = rs2 add -> rs1 add <> rs2 add ->
  let core1 := snd (cpu_execute_arithmetic core add) in
  let core2 := snd (cpu_execute_arithmetic core1 sub) in
  fst (cpu_execute_arithmetic core add) = 0 /\
  fst (cpu_execute_arithmetic core1 sub) = 0 /\
  gpr_read (regs core1) (rs1 add) =
    to_uint64 (gpr_read (regs core) (rs1 add) + gpr_read (regs core) (rs2 add)) /\
  gpr (regs core2) = gpr (regs core).
Proof.
  intros Hadd Hsub Hwf Hfa Hfs H1 H2 Hne core1 core2.
  pose proof Hwf as (Hlen & _).
  pose proof (gpr_read_range (regs core) (rs1 add) Hwf) as Ha.
  assert (Hb1 : 0 <= rs1 add < 16) by (apply in_uint4_bounds, Hadd).
  assert (Hb2 : 0 <= rs2 add < 16) by (apply in_uint4_bounds, Hadd).
  set (a := gpr_read (regs core) (rs1 add)) in *.
  set (b := gpr_read (regs core) (rs2 add)) in *.
  destruct (cpu_execute_arithmetic_writes core add (to_uint64 (a + b)) Hadd Hlen)
    as (Hst1 & Hr1 & Hg1).
  { rewrite Hfa. reflexivity. }
  fold core1 in Hr1, Hg1.
  assert (Hlen1 : length (gpr (regs core1)) = 64%nat)
    by (rewrite Hg1, length_insert; exact Hlen).
  assert (Hr2 : gpr_read (regs core1) (rs2 add) = b).
  { unfold gpr_read. rewrite Hg1, list_lookup_insert_ne by lia. reflexivity. }
  destruct (cpu_execute_arithmetic_writes core1 sub
              (to_uint64 (to_uint64 (a + b) - b)) Hsub Hlen1)
    as (Hst2 & _ & Hg2).
  { rewrite Hfs, H1, H2, Hr1, Hr2. reflexivity. }
  fold core2 in Hg2.
  split; [exact Hst1 | split; [exact Hst2 | split; [exact Hr1 | ]]].
  rewrite Hg2, Hg1, H1, list_insert_insert_eq.
  apply list_insert_id.
  rewrite gpr_read_lookup by (rewrite Hlen; lia). f_equal. fold a.
  unfold to_uint64, to_uint. rewrite Zminus_mod_idemp_l.
  replace (a + b - b) with a by lia. symmetry. apply Z.mod_small. exact Ha.
Qed.

Lemma with_gpr_wf core i x :
  wf_register_file (regs core) -> in_uint 64 x ->
  wf_register_file (regs (with_gpr core i x)).
Proof.
  intros (H1 & H2 & H3) Hx. unfold with_gpr, wf_register_file, set_gpr.
  cbn [regs set_regs gpr fpr vector pc sp fp lr flags].
  rewrite length_insert.
  split; [exact H1 | split; [ | exact H3]]. now apply Forall_insert.
Qed.

Lemma add_then_sub_restores_witness :
  let core := with_gpr (with_gpr example_core 1 (2 ^ 64 - 1)) 2 7 in
  let add := mk_instruction 0x0 0x0 0x2 0x1 0 0 in
  let sub := mk_instruction 0x0 0x1 0x2 0x1 0 0 in
  let core1 := snd (cpu_execute_arithmetic core add) in
  let core2 := snd (cpu_execute_arithmetic core1 sub) in
  gpr_read (regs core1) 1 = 6 /\ gpr (regs core2) = gpr (regs core).
Proof.
  intros core add sub core1 core2.
  assert (Hadd : wf_instruction add)
    by (unfold wf_instruction, in_uint; cbn; lia).
  assert (Hsub : wf_instruction sub)
    by (unfold wf_instruction, in_uint; cbn; lia).
  assert (Hwf : wf_register_file (regs core)).
  { repeat apply with_gpr_wf; [apply example_core_wf | | ];
      unfold in_uint; lia. }
  destruct (add_then_sub_restores core add sub Hadd Hsub Hwf
              eq_refl eq_refl eq_refl eq_refl ltac:(cbn; lia))
    as (_ & _ & _ & Hback).
  split; [reflexivity | exact Hback].
Defined.

Lemma shift_amount y : Z.land y 0x3F = y mod 64 /\ 0 <= y mod 64 < 64.
Proof.
  change (Z.land y 0x3F) with (Z.land y (Z.ones 6)).
  rewrite Z.land_ones by lia. change (2 ^ 6) with 64.
  split; [reflexivity | apply Z.mod_pos_bound; lia].
Qed.

(** X7.  SHL and SHR take the shift amount from the low six bits of
    [gpr[rs2]]: with [s = gpr[rs2] mod 64], SHL writes
    [(gpr[rs1] * 2^s) mod 2^64] and SHR writes [gpr[rs1] / 2^s] (a logical
    shift), and both always succeed; an amount that is a multiple of 64
    leaves the register as it was. *)
Theorem shift_amount_modulo_64 (core : cpu_core_t) (inst : instruction_t) :
  wf_instruction inst -> wf_register_file (regs core) ->
  funct inst = 0x8 \/ funct inst = 0x9 ->
  let x := gpr_read (regs core) (rs1 inst) in
  let s := gpr_read (regs core) (rs2 inst) mod 64 in
  let core' := snd (cpu_execute_arithmetic core inst) in
  fst (cpu_execute_arithmetic core inst) = 0 /\
  (funct inst = 0x8 ->
     gpr_read (regs core') (rs1 inst) = (x * 2 ^ s) mod 2 ^ 64) /\
  (funct inst = 0x9 -> gpr_read (regs core') (rs1 inst) = x / 2 ^ s) /\
  (s = 0 -> gpr_read (regs core') (rs1 inst) = x).
Proof.
  intros Hinst Hwf Hfn x s core'.
  pose proof Hwf as (Hlen & _).
  pose proof (gpr_read_range (regs core) (rs1 inst) Hwf) as Hx. fold x in Hx.
  destruct (shift_amount (gpr_read (regs core) (rs2 inst))) as [Hland Hs].
  fold s in Hland, Hs.
  assert (Hwrite : exists r,
    arithmetic_result (funct inst) x (gpr_read (regs core) (rs2 inst)) = Some r /\
    (funct inst = 0x8 -> r = (x * 2 ^ s) mod 2 ^ 64) /\
    (funct inst = 0x9 -> r = x / 2 ^ s)).
  { destruct Hfn as [Hfn | Hfn]; rewrite Hfn; unfold arithmetic_result;
      rewrite Hland; eexists; (split; [reflexivity | ]); split; intros Hf;
      try discriminate Hf.
    - unfold to_uint64, to_uint. now rewrite Z.shiftl_mul_pow2 by lia.
    - now rewrite Z.shiftr_div_pow2 by lia. }
  destruct Hwrite as (r & Hres & H8 & H9).
  destruct (cpu_execute_arithmetic_writes core inst r Hinst Hlen Hres)
    as (Hst & Hr & _).
  fold core' in Hr. rewrite Hr.
  split; [exact Hst | split; [exact H8 | split; [exact H9 | ]]].
  intros Hs0. destruct Hfn as [Hfn | Hfn].
  - rewrite (H8 Hfn), Hs0. change (2 ^ 0) with 1. rewrite Z.mul_1_r.
    apply Z.mod_small. exact Hx.
  - rewrite (H9 Hfn), Hs0. change (2 ^ 0) with 1. apply Z.div_1_r.
Qed.

Lemma shift_amount_modulo_64_witness :
  let core := with_gpr (with_gpr example_core 1 5) 2 67 in
  let shl := mk_instruction 0x0 0x8 0x2 0x1 0 0 in
  gpr_read (regs (snd (cpu_execute_arithmetic core shl))) 1 = 40.
Proof.
  intros core shl.
  assert (Hshl : wf_instruction shl)
    by (unfold wf_instruction, in_uint; cbn; lia).
  assert (Hwf : wf_register_file (regs core)).
  { repeat apply with_gpr_wf; [apply example_core_wf | | ];
      unfold in_uint; lia. }
  destruct (shift_amount_modulo_64 core shl Hshl Hwf ltac:(left; reflexivity))
    as (_ & H8 & _).
  change (gpr_read (regs (snd (cpu_execute_arithmetic core shl))) (rs1 shl) = 40).
  rewrite (H8 eq_refl). reflexivity.
Defined.

(** X8.  ROT is a left rotation of the 64-bit word by
    [s = gpr[rs2] mod 64]: it always succeeds, and bit [k] of the result is
    bit [(k - s) mod 64] of the operand, for every amount - zero
    included, where the result is the operand itself. *)
Theorem rot_is_rotation (core : cpu_core_t) (inst : instruction_t) :
  wf_instruction inst -> wf_register_file (regs core) ->
  funct inst = 0xA ->
  let x := gpr_read (regs core) (rs1 inst) in
  let s := gpr_read (regs core) (rs2 inst) mod 64 in
  let core' := snd (cpu_execute_arithmetic core inst) in
  fst (cpu_execute_arithmetic core inst) = 0 /\
  in_uint 64 (gpr_read (regs core') (rs1 inst)) /\
  (forall k, 0 <= k < 64 ->
     Z.testbit (gpr_read (regs core') (rs1 inst)) k =
       Z.testbit x ((k - s) mod 64)) /\
  (s = 0 -> gpr_read (regs core') (rs1 inst) = x).
Proof.
  intros Hinst Hwf Hfn x s core'.
  pose proof Hwf as (Hlen & _).
  pose proof (gpr_read_range (regs core) (rs1 inst) Hwf) as Hx. fold x in Hx.
  pose proof (gpr_read_range (regs core) (rs2 inst) Hwf) as Hy.
  destruct (shift_amount (gpr_read (regs core) (rs2 inst))) as [Hland Hs].
  fold s in Hland, Hs.
  set (r := Z.lor (to_uint64 (Z.shiftl x s)) (Z.shiftr x (64 - s))).
  assert (Hres : arithmetic_result (funct inst) x
                   (gpr_read (regs core) (rs2 inst)) = Some r).
  { rewrite Hfn. unfold arithmetic_result. rewrite Hland. reflexivity. }
  destruct (cpu_execute_arithmetic_writes core inst r Hinst Hlen Hres)
    as (Hst & Hr & _).
  fold core' in Hr. rewrite Hr.
  assert (Hbits : forall k, 0 <= k < 64 ->
            Z.testbit r k = Z.testbit x ((k - s) mod 64)).
  { intros k Hk. unfold r, to_uint64.
    rewrite Z.lor_spec, to_uint_land, Z.land_spec by lia.
    rewrite Z.ones_spec_low, andb_true_r by lia.
    rewrite Z.shiftl_spec, Z.shiftr_spec by lia.
    pose proof (proj1 (in_uint_bits 64 x ltac:(lia)) Hx) as [Hhigh _].
    destruct (Z_lt_le_dec k s) as [Hlt | Hge].
    - rewrite (Z.testbit_neg_r x (k - s)) by lia. cbn [orb].
      f_equal. apply Z.mod_unique with (q := -1); lia.
    - rewrite (Hhigh (k + (64 - s))) by lia. rewrite orb_false_r.
      f_equal. symmetry. apply Z.mod_small. lia. }
  split; [exact Hst | split; [ | split; [exact Hbits | ]]].
  - apply (arithmetic_result_range _ _ _ _ Hx Hy Hres).
  - intros Hs0.
    assert (Hz : Z.land (gpr_read (regs core) (rs2 inst)) 0x3F = 0)
      by (rewrite Hland; exact Hs0).
    destruct (rot_full_width_shift_irrelevant x _ Hx Hz) as [Hrot _].
    rewrite <- Hfn in Hrot. rewrite Hres in Hrot. now inversion Hrot.
Qed.

Lemma rot_is_rotation_witness :
  let core := with_gpr (with_gpr example_core 1 (2 ^ 63 + 1)) 2 1 in
  let rot := mk_instruction 0x0 0xA 0x2 0x1 0 0 in
  gpr_read (regs (snd (cpu_execute_arithmetic core rot))) 1 = 3 /\
  Z.testbit (gpr_read (regs (snd (cpu_execute_arithmetic core rot))) 1) 0 = true.
Proof.
  intros core rot.
  assert (Hrot : wf_instruction rot)
    by (unfold wf_instruction, in_uint; cbn; lia).
  assert (Hwf : wf_register_file (regs core)).
  { repeat apply with_gpr_wf; [apply example_core_wf | | ];
      unfold in_uint; lia. }
  destruct (rot_is_rotation core rot Hrot Hwf eq_refl) as (_ & _ & Hbits & _).
  split; [reflexivity | ].
  change (Z.testbit
            (gpr_read (regs (snd (cpu_execute_arithmetic core rot))) (rs1 rot)) 0
          = true).
  rewrite (Hbits 0) by lia. reflexivity.
Defined.

(** ** Floating-point unit: FSQRT and the frame *)

Lemma ge_zero_test x :
  SFleb fzero x = negb (is_nan x || is_negative_nonzero x).
Proof. destruct x as [s | s | | s m e]; try destruct s; reflexivity. Qed.

(** X9.  FSQRT fails with status -1, leaving the core as it was, exactly
    when the operand [fpr[rs1]] is NaN or negative and not a zero (a
    negative number or minus infinity).  Both zeros are accepted and are
    their own square roots - FSQRT(-0) is -0 - and so is plus infinity. *)
Theorem fsqrt_domain (core : cpu_core_t) (inst : instruction_t) :
  funct inst = 0x4 ->
  let x := fpr_read (regs core) (rs1 inst) in
  let rejected := is_nan x || is_negative_nonzero x in
  (fst (cpu_execute_floating_point core inst) < 0 <-> rejected = true) /\
  (rejected = true -> cpu_execute_floating_point core inst = (-1, core)) /\
  (rejected = false ->
     cpu_execute_floating_point core inst =
       (0, set_regs core
             (set_fpr (regs core) (rs1 inst) (SFsqrt prec32 emax32 x)))) /\
  (is_zero x = true \/ x = S754_infinity false ->
     SFsqrt prec32 emax32 x = x /\ rejected = false).
Proof.
  intros Hfn x rejected.
  unfold cpu_execute_floating_point, float_result. rewrite Hfn.
  fold x. rewrite ge_zero_test. fold rejected.
  split; [ | split; [ | split]].
  - destruct rejected; cbn; split; intros; try lia; congruence.
  - intros ->. reflexivity.
  - intros ->. reflexivity.
  - intros [Hz | ->]; [ | split; reflexivity].
    subst rejected. destruct x as [s | s | | s m e]; try discriminate Hz.
    split; reflexivity.
Qed.

Lemma fsqrt_domain_witness :
  let inst := mk_instruction 0x8 0x4 0x2 0x1 0 0 in
  let minus_one := with_fpr example_core 1 (S754_finite true 8388608 (-23)) in
  let minus_zero := with_fpr example_core 1 (S754_zero true) in
  cpu_execute_floating_point minus_one inst = (-1, minus_one) /\
  fpr_read (regs (snd (cpu_execute_floating_point minus_zero inst))) 1
    = S754_zero true.
Proof.
  intros inst minus_one minus_zero.
  destruct (fsqrt_domain minus_one inst eq_refl) as (_ & Hfail & _).
  destruct (fsqrt_domain minus_zero inst eq_refl) as (_ & _ & Hok & _).
  split; [apply Hfail; reflexivity | ].
  rewrite (Hok eq_refl). reflexivity.
Defined.

(** X10.  A floating-point instruction that succeeds changes
    [fpr[rs1]] and nothing else: the other floating-point registers, the
    general and vector registers, PC, SP, FP, LR and FLAGS - which no
    floating-point operation sets - are as before.  FADD, FSUB and FMUL
    succeed on every operand pair, NaN and infinities included. *)
Theorem floating_point_frame (core core' : cpu_core_t) (inst : instruction_t) :
  cpu_execute_floating_point core inst = (0, core') ->
  (forall i : nat, i <> Z.to_nat (rs1 inst) ->
     fpr (regs core') !! i = fpr (regs core) !! i) /\
  length (fpr (regs core')) = length (fpr (regs core)) /\
  gpr (regs core') = gpr (regs core) /\
  vector (regs core') = vector (regs core) /\
  pc (regs core') = pc (regs core) /\
  sp (regs core') = sp (regs core) /\
  fp (regs core') = fp (regs core) /\
  lr (regs core') = lr (regs core) /\
  flags (regs core') = flags (regs core) /\
  core' = set_regs core (regs core') /\
  0 <= funct inst <= 4 /\
  (forall core0 inst0, 0 <= funct inst0 <= 2 ->
     fst (cpu_execute_floating_point core0 inst0) = 0).
Proof.
  intros Hrun. unfold cpu_execute_floating_point in Hrun.
  destruct (float_result _ _ _) as [res | ] eqn:Hres; [ | discriminate].
  inversion Hrun; subst core'; clear Hrun. cbn.
  repeat split.
  - intros i Hi. now apply list_lookup_insert_ne.
  - apply length_insert.
  - unfold float_result in Hres.
    repeat match type of Hres with
           | match ?x with _ => _ end = _ => destruct x; try discriminate
           end; lia.
  - unfold float_result in Hres.
    repeat match type of Hres with
           | match ?x with _ => _ end = _ => destruct x; try discriminate
           end; lia.
  - intros core0 inst0 H02.
    unfold cpu_execute_floating_point, float_result.
    assert (Hc : funct inst0 = 0 \/ funct inst0 = 1 \/ funct inst0 = 2) by lia.
    destruct Hc as [-> | [-> | ->]]; reflexivity.
Qed.

Lemma floating_point_frame_witness :
  let inst := mk_instruction 0x8 0x0 0x2 0x1 0 0 in
  let core := with_fpr (with_fpr example_core 1 fone) 2 S754_nan in
  let core' := snd (cpu_execute_floating_point core inst) in
  fpr_read (regs core') 1 = S754_nan /\ flags (regs core') = flags (regs core).
Proof.
  intros inst core core'.
  destruct (floating_point_frame core core' inst eq_refl)
    as (_ & _ & _ & _ & _ & _ & _ & _ & Hfl & _).
  split; [reflexivity | exact Hfl].
Defined.

(** ** [cpu_init] *)

Lemma reset_register_file_wf : wf_register_file reset_register_file.
Proof. exact example_core_wf. Qed.

Lemma cpu_init_loop (n : nat) (cpu0 : cpu_system_t) :
  (n <= length (cores cpu0))%nat ->
  let sys :=
    for_range n
      (fun i sys =>
         mk_cpu_system (alter (init_core i) i (cores sys))
           (num_cores sys) (memory sys) (memory_size sys)
           (clock_frequency sys) (power_consumption sys + 25))
      cpu0 in
  length (cores sys) = length (cores cpu0) /\
  num_cores sys = num_cores cpu0 /\
  memory sys = memory cpu0 /\
  memory_size sys = memory_size cpu0 /\
  clock_frequency sys = clock_frequency cpu0 /\
  power_consumption sys = power_consumption cpu0 + 25 * Z.of_nat n /\
  (forall i, (i < n)%nat ->
     cores sys !! i = init_core i <$> cores cpu0 !! i) /\
  (forall i, (n <= i)%nat -> cores sys !! i = cores cpu0 !! i).
Proof.
  induction n as [ | n IH]; intros Hn.
  - cbn. repeat split; try reflexivity; try lia; intros i Hi; lia.
  - specialize (IH ltac:(lia)). cbv zeta in IH.
    destruct IH as (Hlen & Hnc & Hm & Hms & Hclk & Hpow & Hdone & Hrest).
    cbv zeta. rewrite for_range_S.
    set (sys := for_range n _ cpu0) in *.
    cbn [cores num_cores memory memory_size clock_frequency power_consumption].
    rewrite length_alter.
    split; [exact Hlen | split; [exact Hnc | split; [exact Hm | ]]].
    split; [exact Hms | split; [exact Hclk | split; [lia | split]]].
    + intros i Hi. destruct (Nat.eq_dec i n) as [-> | Hne].
      * rewrite list_lookup_alter_eq. now rewrite Hrest by lia.
      * rewrite list_lookup_alter_ne by lia. apply Hdone. lia.
    + intros i Hi. rewrite list_lookup_alter_ne by lia. apply Hrest. lia.
Qed.

(** X11.  [cpu_init] returns the null pointer exactly when one of its two
    allocations fails.  Otherwise, for a core count between 0 and
    MAX_CORES, the system records the count and the memory size, runs at
    5000 MHz and draws 25 W per core; core [i] below the count has
    [core_id = i] and a well-formed, cleared register file with PC =
    0x1000 and SP = FP = 0x8000; the cores from the count on are left as
    the allocation delivered them. *)
Theorem cpu_init_establishes (cpu_alloc : option cpu_system_t)
    (mem_alloc : option (list Z)) (n_cores mem_size : Z) :
  0 <= n_cores <= MAX_CORES ->
  (forall raw, cpu_alloc = Some raw -> length (cores raw) = Z.to_nat MAX_CORES) ->
  (cpu_init cpu_alloc mem_alloc n_cores mem_size = None <->
   cpu_alloc = None \/ mem_alloc = None) /\
  (forall raw mem, cpu_alloc = Some raw -> mem_alloc = Some mem ->
   exists cpu,
     cpu_init cpu_alloc mem_alloc n_cores mem_size = Some cpu /\
     num_cores cpu = n_cores /\ memory cpu = mem /\
     memory_size cpu = mem_size /\
     clock_frequency cpu = 5000 /\
     power_consumption cpu = 25 * n_cores /\
     length (cores cpu) = Z.to_nat MAX_CORES /\
     (forall i, (i < Z.to_nat n_cores)%nat ->
        exists c, cores cpu !! i = Some c /\
          core_id c = Z.of_nat i /\ thread_id c = 0 /\
          regs c = reset_register_file /\ wf_register_file (regs c) /\
          pipeline_stage c = 0) /\
     (forall i, (Z.to_nat n_cores <= i)%nat ->
        cores cpu !! i = cores raw !! i)).
Proof.
  intros Hn Hraw. split.
  - unfold cpu_init. destruct cpu_alloc, mem_alloc; split; intros H;
      try discriminate; auto; destruct H; discriminate.
  - intros raw mem -> ->. specialize (Hraw raw eq_refl).
    unfold MAX_CORES in *. unfold cpu_init.
    pose proof (cpu_init_loop (Z.to_nat n_cores)
                  (mk_cpu_system (cores raw) n_cores mem mem_size 5000 0))
      as Hloop.
    cbn [cores num_cores memory memory_size clock_frequency power_consumption]
      in Hloop.
    destruct (Hloop ltac:(lia))
      as (Hlen & Hnc & Hm & Hms & Hclk & Hpow & Hdone & Hrest).
    eexists. split; [reflexivity | ].
    split; [exact Hnc | split; [exact Hm | split; [exact Hms | ]]].
    split; [exact Hclk | split; [rewrite Hpow; lia | ]].
    split; [rewrite Hlen; exact Hraw | split; [ | exact Hrest]].
    intros i Hi. rewrite (Hdone i Hi).
    destruct (lookup_lt_is_Some_2 (cores raw) i ltac:(lia)) as [c ->].
    exists (init_core i c).
    do 4 (split; [reflexivity | ]).
    split; [apply reset_register_file_wf | reflexivity].
Qed.

Lemma cpu_init_establishes_witness :
  exists cpu,
    cpu_init (Some (mk_cpu_system (replicate 16 example_core) 0 [] 0 0 0))
      (Some (replicate 8 0)) 4 8 = Some cpu /\
    power_consumption cpu = 100 /\
    (core_id <$> cores cpu !! 3%nat) = Some 3.
Proof.
  destruct (cpu_init_establishes
              (Some (mk_cpu_system (replicate 16 example_core) 0 [] 0 0 0))
              (Some (replicate 8 0)) 4 8) as (_ & Hok).
  - unfold MAX_CORES. lia.
  - intros raw Hraw. inversion Hraw. reflexivity.
  - destruct (Hok _ _ eq_refl eq_refl)
      as (cpu & Hinit & _ & _ & _ & _ & Hpow & _ & Hcores & _).
    exists cpu. split; [exact Hinit | split; [exact Hpow | ]].
    destruct (Hcores 3%nat ltac:(lia)) as (c & -> & Hid & _).
    cbn. now rewrite Hid.
Defined.

(** * Further properties of the lane operations *)

Module VectorMoreFacts.
Import VectorOps VectorFacts.

(** A loop that writes lane [k] in turn [k]. *)
Lemma write_loop (val : nat -> Z) (n : nat) (v0 : alpha_ahb_vector_t) :
  (n * 4 <= length (data v0))%nat ->
  let v := for_range n (fun k vec => write_int32 vec k (val k)) v0 in
  length (data v) = length (data v0) /\
  (forall i, (i < n)%nat -> read_int32 v i = to_int32 (val i)) /\
  (forall i, (n <= i)%nat -> read_int32 v i = read_int32 v0 i).
Proof.
  induction n as [ | n IH]; intros Hn.
  - cbn. repeat split. intros i Hi. lia.
  - specialize (IH ltac:(lia)). cbv zeta in IH.
    destruct IH as (Hlen & Hdone & Hrest).
    cbv zeta. rewrite for_range_S.
    set (v := for_range n _ v0) in *.
    split; [ | split].
    + unfold write_int32. cbn [data]. now rewrite length_store_le32.
    + intros i Hi. destruct (Nat.eq_dec i n) as [-> | Hne].
      * apply read_write_same. rewrite Hlen. lia.
      * rewrite read_write_other by lia. apply Hdone. lia.
    + intros i Hi. rewrite read_write_other by lia. apply Hrest. lia.
Qed.

Lemma read_int32_zero i : read_int32 vector_init_zero i = 0.
Proof.
  unfold read_int32, load_le32, byte_at, vector_init_zero. cbn [data].
  assert (H0 : forall k, default 0 (replicate 64 0 !! k) = 0).
  { intros k. destruct (replicate 64 0 !! k) as [x | ] eqn:Hk; [ | reflexivity].
    apply lookup_replicate in Hk as [-> _]. reflexivity. }
  rewrite !H0. reflexivity.
Qed.

(** X12.  Round trip through a vector: [vector_init_int32_array] followed
    by [vector_extract_int32_array] with the same count gives back the
    first [min(count, 16)] elements of the array, for every array of
    [int32_t] values at least that long, and leaves the rest of the
    destination as it was; the lanes of the vector from [min(count, 16)] on
    are zero, so elements past the sixteenth are dropped. *)
Theorem init_extract_roundtrip (array dst : list Z) (count : Z) :
  0 <= count ->
  let n := Z.to_nat (Z.min count 16) in
  (n <= length array)%nat ->
  Forall in_int32 array ->
  let vec := vector_init_int32_array array count in
  vector_extract_int32_array vec dst count = take n array ++ drop n dst /\
  length (data vec) = 64%nat /\
  (forall i, (n <= i)%nat -> read_int32 vec i = 0).
Proof.
  intros Hc n Hlen Hrange vec.
  assert (Hn : Z.to_nat (if count <? 16 then count else 16) = n).
  { unfold n. destruct (Z.ltb_spec count 16); f_equal; lia. }
  assert (Hn16 : (n <= 16)%nat) by (unfold n; lia).
  pose proof (write_loop (fun k => default 0 (array !! k)) n vector_init_zero)
    as Hloop.
  assert (Hvec : vec =
    for_range n (fun k v => write_int32 v k (default 0 (array !! k)))
      vector_init_zero).
  { unfold vec, vector_init_int32_array. cbv zeta. now rewrite Hn. }
  specialize (Hloop ltac:(cbn; lia)). cbv beta zeta in Hloop.
  rewrite <- Hvec in Hloop.
  destruct Hloop as (Hl & Hdone & Hrest).
  split; [ | split; [exact Hl | ]].
  - unfold vector_extract_int32_array. cbv zeta. rewrite Hn. f_equal.
    apply list_eq. intros i.
    destruct (Nat.lt_ge_cases i n) as [Hi | Hi].
    + rewrite lookup_take_lt by exact Hi.
      change (map (read_int32 vec) (seq 0 n)) with (read_int32 vec <$> seq 0 n).
      rewrite list_lookup_fmap, lookup_seq_lt by exact Hi. cbn.
      rewrite Hdone by exact Hi.
      destruct (lookup_lt_is_Some_2 array i ltac:(lia)) as [x Hx].
      rewrite Hx. cbn. f_equal. apply to_int32_id.
      rewrite Forall_lookup in Hrange. exact (Hrange _ _ Hx).
    + rewrite lookup_take_ge by exact Hi.
      apply lookup_ge_None_2. rewrite length_map, length_seq. exact Hi.
  - intros i Hi. rewrite Hrest by exact Hi. apply read_int32_zero.
Qed.

Lemma init_extract_roundtrip_witness :
  vector_extract_int32_array
    (vector_init_int32_array [7; -3; INT32_MIN] 3) [9; 9; 9; 9; 9] 3
  = [7; -3; INT32_MIN; 9; 9].
Proof.
  assert (Hrange : Forall in_int32 [7; -3; INT32_MIN]).
  { repeat constructor; unfold INT32_MIN, INT32_MAX; lia. }
  destruct (init_extract_roundtrip [7; -3; INT32_MIN] [9; 9; 9; 9; 9] 3
              ltac:(lia) ltac:(cbn; lia) Hrange) as (Hrt & _).
  exact Hrt.
Defined.

(** The flag word of the two arithmetic lane operations, bit by bit. *)
Lemma vector_add_int32_flag_bits uninit a b k :
  length (data (result uninit)) = 64%nat -> 0 <= k ->
  Z.testbit (flags (vector_add_int32 uninit a b)) k =
    (k <? 16) &&
    (let i := Z.to_nat k in
     let s := to_int32 (read_int32 a i + read_int32 b i) in
     ((read_int32 a i >? 0) && (read_int32 b i >? 0) && (s <? 0)) ||
     ((read_int32 a i <? 0) && (read_int32 b i <? 0) && (s >? 0))).
Proof.
  intros Hlen Hk. unfold vector_add_int32.
  pose proof (lane_loop_invariant _ _ (add_lane a b) (add_lane_shape a b)
                16 (mk_vector_result (result uninit) 0 2)
                ltac:(lia) Hlen eq_refl) as (_ & _ & _ & _ & Hfl).
  exact (Hfl k Hk).
Qed.

Lemma vector_mul_int32_flag_bits uninit a b k :
  length (data (result uninit)) = 64%nat -> 0 <= k ->
  Z.testbit (flags (vector_mul_int32 uninit a b)) k =
    (k <? 16) &&
    (let p := read_int32 a (Z.to_nat k) * read_int32 b (Z.to_nat k) in
     (p >? INT32_MAX) || (p <? INT32_MIN)).
Proof.
  intros Hlen Hk. unfold vector_mul_int32.
  pose proof (lane_loop_invariant _ _ (mul_lane a b) (mul_lane_shape a b)
                16 (mk_vector_result (result uninit) 0 4)
                ltac:(lia) Hlen eq_refl) as (_ & _ & _ & _ & Hfl).
  exact (Hfl k Hk).
Qed.

Lemma vector_mul_int32_lane uninit a b i :
  length (data (result uninit)) = 64%nat -> (i < 16)%nat ->
  read_int32 (result (vector_mul_int32 uninit a b)) i =
    (let p := read_int32 a i * read_int32 b i in
     to_int32
       (if (p >? INT32_MAX) || (p <? INT32_MIN)
        then if p >? 0 then INT32_MAX else INT32_MIN
        else p)).
Proof.
  intros Hlen Hi. unfold vector_mul_int32.
  pose proof (lane_loop_invariant _ _ (mul_lane a b) (mul_lane_shape a b)
                16 (mk_vector_result (result uninit) 0 4)
                ltac:(lia) Hlen eq_refl) as (_ & _ & Hval & _).
  rewrite (Hval i Hi). cbv zeta. apply to_int32_id, to_int32_range.
Qed.

Lemma lanes_ext v w :
  (forall i, (i < 16)%nat -> read_int32 v i = read_int32 w i) ->
  lanes v = lanes w.
Proof.
  intros H. unfold lanes. apply map_ext_in. intros i Hi.
  apply in_seq in Hi. apply H. lia.
Qed.

(** X13.  [vector_add_int32] and [vector_mul_int32] are commutative:
    exchanging the two operands gives the same sixteen result lanes, the
    same flags word and the same cycle count, whatever the result objects
    held before the calls. *)
Theorem vector_add_mul_commute (u1 u2 : vector_result_t)
    (a b : alpha_ahb_vector_t) :
  length (data (result u1)) = 64%nat ->
  length (data (result u2)) = 64%nat ->
  (lanes (result (vector_add_int32 u1 a b)) =
     lanes (result (vector_add_int32 u2 b a)) /\
   flags (vector_add_int32 u1 a b) = flags (vector_add_int32 u2 b a) /\
   cycles (vector_add_int32 u1 a b) = cycles (vector_add_int32 u2 b a)) /\
  (lanes (result (vector_mul_int32 u1 a b)) =
     lanes (result (vector_mul_int32 u2 b a)) /\
   flags (vector_mul_int32 u1 a b) = flags (vector_mul_int32 u2 b a) /\
   cycles (vector_mul_int32 u1 a b) = cycles (vector_mul_int32 u2 b a)).
Proof.
  intros H1 H2. split; (split; [ | split]).
  - apply lanes_ext. intros i Hi.
    destruct (vector_add_int32_lanes u1 a b H1) as (_ & Hv1 & _).
    destruct (vector_add_int32_lanes u2 b a H2) as (_ & Hv2 & _).
    rewrite Hv1, Hv2 by exact Hi. f_equal. lia.
  - apply Z.bits_inj'. intros k Hk.
    rewrite !vector_add_int32_flag_bits by assumption. cbv zeta.
    rewrite (Z.add_comm (read_int32 b (Z.to_nat k))).
    rewrite (andb_comm (read_int32 b (Z.to_nat k) >? 0)),
      (andb_comm (read_int32 b (Z.to_nat k) <? 0)).
    reflexivity.
  - destruct (vector_add_int32_lanes u1 a b H1) as (-> & _).
    destruct (vector_add_int32_lanes u2 b a H2) as (-> & _). reflexivity.
  - apply lanes_ext. intros i Hi.
    rewrite !vector_mul_int32_lane by assumption. cbv zeta.
    now rewrite (Z.mul_comm (read_int32 b i)).
  - apply Z.bits_inj'. intros k Hk.
    rewrite !vector_mul_int32_flag_bits by assumption. cbv zeta.
    now rewrite (Z.mul_comm (read_int32 b (Z.to_nat k))).
  - unfold vector_mul_int32.
    pose proof (lane_loop_invariant _ _ (mul_lane a b) (mul_lane_shape a b)
                  16 (mk_vector_result (result u1) 0 4)
                  ltac:(lia) H1 eq_refl) as (_ & -> & _).
    pose proof (lane_loop_invariant _ _ (mul_lane b a) (mul_lane_shape b a)
                  16 (mk_vector_result (result u2) 0 4)
                  ltac:(lia) H2 eq_refl) as (_ & -> & _).
    reflexivity.
Qed.

Lemma vector_add_mul_commute_witness :
  lanes (result (vector_add_int32 zero_result vec_a vec_b)) =
    lanes (result (vector_add_int32 zero_result vec_b vec_a)) /\
  flags (vector_mul_int32 zero_result (lane0 65536) (lane0 (-65536))) =
    flags (vector_mul_int32 zero_result (lane0 (-65536)) (lane0 65536)).
Proof.
  destruct (vector_add_mul_commute zero_result zero_result vec_a vec_b
              eq_refl eq_refl) as ((Hl & _) & _).
  destruct (vector_add_mul_commute zero_result zero_result
              (lane0 65536) (lane0 (-65536)) eq_refl eq_refl)
    as (_ & (_ & Hf & _)).
  split; [exact Hl | exact Hf].
Defined.

(** Storing a lane makes two buffers that agree below it agree up to
    its end. *)
Lemma store_le32_agree d d' off x k :
  length d = length d' -> (off + 4 <= length d)%nat ->
  (forall j, (j < off)%nat -> d !! j = d' !! j) ->
  (k < off + 4)%nat ->
  store_le32 d off x !! k = store_le32 d' off x !! k.
Proof.
  intros Hlen Hoff Hlow Hk. unfold store_le32.
  destruct (Nat.eq_dec k (off + 3)%nat) as [-> | H3].
  { rewrite !list_lookup_insert_eq by (rewrite !length_insert; lia).
    reflexivity. }
  rewrite !(list_lookup_insert_ne _ (off + 3)%nat) by lia.
  destruct (Nat.eq_dec k (off + 2)%nat) as [-> | H2].
  { rewrite !list_lookup_insert_eq by (rewrite !length_insert; lia).
    reflexivity. }
  rewrite !(list_lookup_insert_ne _ (off + 2)%nat) by lia.
  destruct (Nat.eq_dec k (off + 1)%nat) as [-> | H1].
  { rewrite !list_lookup_insert_eq by (rewrite !length_insert; lia).
    reflexivity. }
  rewrite !(list_lookup_insert_ne _ (off + 1)%nat) by lia.
  destruct (Nat.eq_dec k off) as [-> | H0].
  { rewrite !list_lookup_insert_eq by lia. reflexivity. }
  rewrite !(list_lookup_insert_ne _ off) by lia.
  apply Hlow. lia.
Qed.

Section LaneLoopBytes.

Variable val : nat -> Z.
Variable ovf : nat -> bool.
Variable step : nat -> vector_result_t -> vector_result_t.
Hypothesis step_shape : forall i r,
  step i r =
    mk_vector_result (write_int32 (result r) i (val i))
      (if ovf i then Z.lor (flags r) (Z.shiftl 1 (Z.of_nat i)) else flags r)
      (cycles r).

(** After [n] lanes the first [4 * n] bytes no longer depend on what the
    buffer held at the start. *)
Lemma lane_loop_bytes (n : nat) (r0 r0' : vector_result_t) :
  (n <= 16)%nat ->
  length (data (result r0)) = 64%nat ->
  length (data (result r0')) = 64%nat ->
  let r := for_range n step r0 in
  let r' := for_range n step r0' in
  length (data (result r)) = 64%nat /\
  length (data (result r')) = 64%nat /\
  (forall k, (k < n * 4)%nat ->
     data (result r) !! k = data (result r') !! k).
Proof.
  intros Hn H0 H0'. induction n as [ | n IH].
  - cbn. repeat split; try assumption. intros k Hk. lia.
  - specialize (IH ltac:(lia)). cbv zeta in IH.
    destruct IH as (Hl & Hl' & Hagree).
    cbv zeta. rewrite !for_range_S.
    set (r := for_range n step r0) in *.
    set (r' := for_range n step r0') in *.
    rewrite !step_shape. cbn [result]. unfold write_int32. cbn [data].
    rewrite !length_store_le32.
    split; [exact Hl | split; [exact Hl' | ]].
    intros k Hk. apply store_le32_agree; try lia. exact Hagree.
Qed.

Lemma lane_loop_ignores_start (r0 r0' : vector_result_t) :
  length (data (result r0)) = 64%nat ->
  length (data (result r0')) = 64%nat ->
  flags r0 = 0 -> flags r0' = 0 -> cycles r0 = cycles r0' ->
  for_range 16 step r0 = for_range 16 step r0'.
Proof.
  intros H0 H0' Hf Hf' Hc.
  destruct (lane_loop_bytes 16 r0 r0' ltac:(lia) H0 H0') as (Hl & Hl' & Hb).
  pose proof (lane_loop_invariant val ovf step step_shape 16 r0
                ltac:(lia) H0 Hf) as (_ & Hc1 & _ & _ & Hfl1).
  pose proof (lane_loop_invariant val ovf step step_shape 16 r0'
                ltac:(lia) H0' Hf') as (_ & Hc2 & _ & _ & Hfl2).
  destruct (for_range 16 step r0) as [[d] f c].
  destruct (for_range 16 step r0') as [[d'] f' c'].
  cbn [result data flags cycles] in *.
  assert (d = d') as <-.
  { apply list_eq. intros k.
    destruct (Nat.lt_ge_cases k 64) as [Hk | Hk]; [apply Hb; lia | ].
    rewrite !lookup_ge_None_2 by lia. reflexivity. }
  assert (f = f') as <-.
  { apply Z.bits_inj'. intros k Hk. now rewrite Hfl1, Hfl2. }
  assert (c = c') as <- by congruence.
  reflexivity.
Qed.

End LaneLoopBytes.

Lemma cmp_lane_shape a b i r :
  cmp_lane a b i r =
    mk_vector_result
      (write_int32 (result r) i
         (if read_int32 a i >? read_int32 b i then 1 else 0))
      (if false then Z.lor (flags r) (Z.shiftl 1 (Z.of_nat i)) else flags r)
      (cycles r).
Proof. reflexivity. Qed.

(** X14.  The lane operations write every byte of their result: the whole
    result object - 64 bytes, flags, cycles - of [vector_add_int32],
    [vector_mul_int32] and [vector_cmp_int32] is the same whatever the
    local [result] held before the loop, so nothing of the uninitialised
    object reaches the caller. *)
Theorem vector_results_ignore_uninit (u1 u2 : vector_result_t)
    (a b : alpha_ahb_vector_t) :
  length (data (result u1)) = 64%nat ->
  length (data (result u2)) = 64%nat ->
  vector_add_int32 u1 a b = vector_add_int32 u2 a b /\
  vector_mul_int32 u1 a b = vector_mul_int32 u2 a b /\
  vector_cmp_int32 u1 a b = vector_cmp_int32 u2 a b.
Proof.
  intros H1 H2. split; [ | split].
  - apply (lane_loop_ignores_start _ _ _ (add_lane_shape a b));
      try assumption; reflexivity.
  - apply (lane_loop_ignores_start _ _ _ (mul_lane_shape a b));
      try assumption; reflexivity.
  - apply (lane_loop_ignores_start _ (fun _ => false) _ (cmp_lane_shape a b));
      try assumption; reflexivity.
Qed.

Lemma vector_results_ignore_uninit_witness :
  vector_add_int32 (mk_vector_result (mk_vector (replicate 64 255)) 77 9)
    vec_a vec_b
  = vector_add_int32 zero_result vec_a vec_b.
Proof.
  destruct (vector_results_ignore_uninit
              (mk_vector_result (mk_vector (replicate 64 255)) 77 9)
              zero_result vec_a vec_b eq_refl eq_refl) as (Hadd & _).
  exact Hadd.
Defined.

(** X15.  [vector_cmp_int32] compares the lanes as signed 32-bit numbers:
    result lane [i] is 1 when lane [i] of the first operand is greater
    than lane [i] of the second and 0 otherwise; the flags word is always
    0 and the cycle count 1.  No lane is 1 in both orders of the operands,
    and comparing a vector with itself gives zero lanes. *)
Theorem vector_cmp_int32_lanes (uninit : vector_result_t)
    (a b : alpha_ahb_vector_t) (i : nat) :
  length (data (result uninit)) = 64%nat ->
  (i < 16)%nat ->
  let gt x y := read_int32 (result (vector_cmp_int32 uninit x y)) i in
  gt a b = (if read_int32 a i >? read_int32 b i then 1 else 0) /\
  flags (vector_cmp_int32 uninit a b) = 0 /\
  cycles (vector_cmp_int32 uninit a b) = 1 /\
  (gt a b = 1 -> gt b a = 0) /\
  gt a a = 0.
Proof.
  intros Hlen Hi gt.
  assert (Hlane : forall x y,
    gt x y = (if read_int32 x i >? read_int32 y i then 1 else 0)).
  { intros x y. unfold gt, vector_cmp_int32.
    pose proof (lane_loop_invariant _ (fun _ => false) (cmp_lane x y)
                  (cmp_lane_shape x y)
                  16 (mk_vector_result (result uninit) 0 1)
                  ltac:(lia) Hlen eq_refl) as (_ & _ & Hval & _).
    rewrite (Hval i Hi). destruct (_ >? _); reflexivity. }
  unfold vector_cmp_int32 at 1 2.
  pose proof (lane_loop_invariant _ (fun _ => false) (cmp_lane a b)
                (cmp_lane_shape a b)
                16 (mk_vector_result (result uninit) 0 1)
                ltac:(lia) Hlen eq_refl) as (_ & Hcyc & _ & _ & Hfl).
  split; [apply Hlane | split; [ | split; [exact Hcyc | split]]].
  - apply Z.bits_inj'. intros k Hk. rewrite Hfl by exact Hk.
    rewrite andb_false_r. symmetry. apply Z.bits_0.
  - rewrite !Hlane.
    destruct (Z.gtb_spec (read_int32 a i) (read_int32 b i));
      destruct (Z.gtb_spec (read_int32 b i) (read_int32 a i));
      intros; try reflexivity; try discriminate; lia.
  - rewrite Hlane.
    destruct (Z.gtb_spec (read_int32 a i) (read_int32 a i)); [lia | reflexivity].
Qed.

Lemma vector_cmp_int32_lanes_witness :
  read_int32 (result (vector_cmp_int32 zero_result (lane0 (-1)) (lane0 0))) 0 = 0 /\
  read_int32 (result (vector_cmp_int32 zero_result (lane0 0) (lane0 (-1)))) 0 = 1.
Proof.
  destruct (vector_cmp_int32_lanes zero_result (lane0 (-1)) (lane0 0) 0
              eq_refl ltac:(lia)) as (H1 & _).
  destruct (vector_cmp_int32_lanes zero_result (lane0 0) (lane0 (-1)) 0
              eq_refl ltac:(lia)) as (H2 & _).
  split; [rewrite H1 | rewrite H2]; reflexivity.
Defined.

End VectorMoreFacts.

(** * Further properties of the dense layer *)

Module NpuMoreFacts.
Import Npu NpuFacts.

Lemma to_int16_range x : -32768 <= to_int16 x <= 32767.
Proof.
  unfold to_int16, to_int.
  pose proof (to_uint_range 16 x ltac:(lia)) as H.
  change (2 ^ 16) with 65536 in *. change (2 ^ (16 - 1)) with 32768.
  destruct (Z.ltb_spec (to_uint 16 x) 32768); lia.
Qed.

(** X16.  Whenever the processing elements of a neuron cover the input
    ([input_size <= max(1, 1024 / output_size)]), [npu_dense_forward]
    returns and computes the dense layer in full: for every output neuron
    [j], [output[j]] is the activation of the 32-bit sum of all
    [input[i] * weight[j][i]] plus [bias[j]], narrowed to 16 bits; it
    writes [output_size] entries and leaves the rest of the output buffer
    as it was. *)
Theorem npu_dense_forward_full (sigmoid_fixed tanh_fixed : Z -> Z)
    (npu : npu_controller_t) (layer : npu_layer_t) (input output : list Z) :
  0 <= input_size layer -> 0 < output_size layer ->
  output_size layer * input_size layer < 2 ^ 32 ->
  input_size layer <= pe_budget layer ->
  (Z.to_nat (output_size layer) <= length output)%nat ->
  exists npu' out,
    npu_dense_forward sigmoid_fixed tanh_fixed npu layer input output
      = Some (npu', out) /\
    length out = length output /\
    (forall j, (j < Z.to_nat (output_size layer))%nat ->
       out !! j =
         Some (npu_apply_activation sigmoid_fixed tanh_fixed
                 (to_int16 (dense_sum layer input j)) (activation layer))) /\
    (forall j, (Z.to_nat (output_size layer) <= j)%nat ->
       out !! j = output !! j).
Proof.
  intros Hin Hout Haddr Hfit Hlen.
  destruct (npu_dense_forward_outputs sigmoid_fixed tanh_fixed layer input
              Hin Hout Haddr npu output Hlen)
    as (npu' & out & Hrun & Hl & Hdone & Hrest).
  exists npu', out.
  split; [exact Hrun | split; [exact Hl | split; [ | exact Hrest]]].
  intros j Hj. rewrite (Hdone j Hj). f_equal.
  now apply neuron_value_full.
Qed.

Lemma npu_dense_forward_full_witness :
  exists npu' out,
    npu_dense_forward (fun x => x) (fun x => x) npu_init identity_layer
      [5; -7] [0; 0; 99] = Some (npu', out) /\
    out !! 0%nat = Some 5 /\ out !! 1%nat = Some 0 /\ out !! 2%nat = Some 99.
Proof.
  destruct (npu_dense_forward_full (fun x => x) (fun x => x) npu_init
              identity_layer [5; -7] [0; 0; 99])
    as (npu' & out & Hrun & _ & Hdone & Hrest);
    try (cbn; lia); try (vm_compute; congruence).
  exists npu', out. split; [exact Hrun | ].
  rewrite (Hdone 0%nat), (Hdone 1%nat), (Hrest 2%nat) by (cbn; lia).
  repeat split; reflexivity.
Defined.

(** X17.  With ReLU as activation every entry [npu_dense_forward] writes
    lies between 0 and 32767, for every layer, weight matrix, bias and
    input: a negative pre-activation is stored as 0, never as a negative
    number. *)
Theorem npu_dense_forward_relu_range (sigmoid_fixed tanh_fixed : Z -> Z)
    (npu : npu_controller_t) (layer : npu_layer_t) (input output : list Z) :
  0 <= input_size layer -> 0 < output_size layer ->
  output_size layer * input_size layer < 2 ^ 32 ->
  (Z.to_nat (output_size layer) <= length output)%nat ->
  activation layer = ACTIVATION_RELU ->
  exists npu' out,
    npu_dense_forward sigmoid_fixed tanh_fixed npu layer input output
      = Some (npu', out) /\
    (forall j, (j < Z.to_nat (output_size layer))%nat ->
       exists y, out !! j = Some y /\ 0 <= y <= 32767).
Proof.
  intros Hin Hout Haddr Hlen Hact.
  destruct (npu_dense_forward_outputs sigmoid_fixed tanh_fixed layer input
              Hin Hout Haddr npu output Hlen)
    as (npu' & out & Hrun & _ & Hdone & _).
  exists npu', out. split; [exact Hrun | ].
  intros j Hj. eexists. split; [exact (Hdone j Hj) | ].
  unfold neuron_value. rewrite Hact.
  unfold npu_apply_activation, npu_activation_relu.
  match goal with |- context [to_int16 ?s] =>
    pose proof (to_int16_range s) as Hr;
    destruct (Z.gtb_spec (to_int16 s) 0) end; lia.
Qed.

Lemma npu_dense_forward_relu_range_witness :
  exists npu' out,
    npu_dense_forward (fun x => x) (fun x => x) npu_init identity_layer
      [-4; 9] [0; 0] = Some (npu', out) /\
    exists y, out !! 0%nat = Some y /\ 0 <= y <= 32767.
Proof.
  destruct (npu_dense_forward_relu_range (fun x => x) (fun x => x) npu_init
              identity_layer [-4; 9] [0; 0])
    as (npu' & out & Hrun & Hrange);
    try (cbn; lia); try reflexivity; try (vm_compute; congruence).
  exists npu', out. split; [exact Hrun | ].
  apply (Hrange 0%nat). cbn. lia.
Defined.

(** X18.  The integer activations.  ReLU and leaky ReLU are monotone and
    fix every positive argument; ReLU sends the rest to 0; leaky ReLU
    sends a non-positive [x] to [x / 10] rounded toward zero, so that
    the arguments -9 ... 0 all give 0; and the softmax selector applies no
    function at all. *)
Theorem integer_activations (sigmoid_fixed tanh_fixed : Z -> Z) (x y : Z) :
  let act := npu_apply_activation sigmoid_fixed tanh_fixed in
  (x <= y -> act x ACTIVATION_RELU <= act y ACTIVATION_RELU) /\
  (x <= y -> act x ACTIVATION_LEAKY_RELU <= act y ACTIVATION_LEAKY_RELU) /\
  (0 < x -> act x ACTIVATION_RELU = x /\ act x ACTIVATION_LEAKY_RELU = x) /\
  (x <= 0 -> act x ACTIVATION_RELU = 0) /\
  (x <= 0 ->
     x <= 10 * act x ACTIVATION_LEAKY_RELU < x + 10 /\
     act x ACTIVATION_LEAKY_RELU <= 0) /\
  (-9 <= x <= 0 -> act x ACTIVATION_LEAKY_RELU = 0) /\
  act x ACTIVATION_SOFTMAX = x.
Proof.
  intros act. subst act.
  unfold npu_apply_activation, npu_activation_relu, npu_activation_leaky_relu.
  pose proof (Z.quot_rem' x 10) as Hx. pose proof (Z.quot_rem' y 10) as Hy.
  assert (Hrx : x <= 0 -> -10 < Z.rem x 10 <= 0).
  { intros H. pose proof (Z.rem_bound_pos_neg x 10 ltac:(lia) H). lia. }
  assert (Hry : y <= 0 -> -10 < Z.rem y 10 <= 0).
  { intros H. pose proof (Z.rem_bound_pos_neg y 10 ltac:(lia) H). lia. }
  destruct (Z.gtb_spec x 0); destruct (Z.gtb_spec y 0);
    repeat split; intros; try lia.
Qed.

End NpuMoreFacts.

(** * Arbitrary-precision addition and block floating-point addition *)

Module AdvancedArithmeticFacts.
Import AdvancedArithmetic.

Lemma pow64_succ m : 2 ^ (64 * Z.of_nat (S m)) = 2 ^ 64 * 2 ^ (64 * Z.of_nat m).
Proof.
  replace (64 * Z.of_nat (S m)) with (64 + 64 * Z.of_nat m) by lia.
  apply Z.pow_add_r; lia.
Qed.

Lemma words_value_insert_ge m i x l :
  (m <= i)%nat -> words_value m (<[i := x]> l) = words_value m l.
Proof.
  intros Hi. induction m as [ | m IH]; [reflexivity | ].
  cbn [words_value]. rewrite IH by lia.
  now rewrite list_lookup_insert_ne by lia.
Qed.

Lemma words_value_bound m l :
  (forall i, (i < m)%nat -> in_uint 64 (default 0 (l !! i))) ->
  0 <= words_value m l < 2 ^ (64 * Z.of_nat m).
Proof.
  induction m as [ | m IH]; intros Hl; [cbn; lia | ].
  cbn [words_value]. rewrite pow64_succ.
  specialize (IH ltac:(intros i Hi; apply Hl; lia)).
  pose proof (Hl m ltac:(lia)) as Hm. unfold in_uint in Hm.
  set (P := 2 ^ (64 * Z.of_nat m)) in *. nia.
Qed.

(** One word of the addition: the carry test [sum < a] is right unless
    the word of [b] is all ones and a carry comes in. *)
Lemma ap_add_word x y c :
  in_uint 64 x -> in_uint 64 y -> c = 0 \/ c = 1 -> y + c < 2 ^ 64 ->
  let sum := to_uint64 (x + y + c) in
  in_uint 64 sum /\
  x + y + c = sum + (if sum <? x then 1 else 0) * 2 ^ 64.
Proof.
  unfold in_uint, to_uint64, to_uint. intros Hx Hy Hc Hyc. cbv zeta.
  split; [apply Z.mod_pos_bound; lia | ].
  destruct (Z_lt_le_dec (x + y + c) (2 ^ 64)) as [Hsmall | Hbig].
  - rewrite Z.mod_small by lia.
    destruct (Z.ltb_spec (x + y + c) x); lia.
  - replace ((x + y + c) mod 2 ^ 64) with (x + y + c - 2 ^ 64).
    + destruct (Z.ltb_spec (x + y + c - 2 ^ 64) x); lia.
    + apply Z.mod_unique with (q := 1); lia.
Qed.

Section ApAdd.

Variables a b : ap_number_t.
Variable n : nat.
Hypothesis a_words : Forall (in_uint 64) (data a).
Hypothesis b_words : Forall (in_uint 64) (data b).
Hypothesis b_not_all_ones :
  forall i, (i < n)%nat -> default 0 (data b !! i) < 2 ^ 64 - 1.

Lemma word_range (l : list Z) i :
  Forall (in_uint 64) l -> in_uint 64 (default 0 (l !! i)).
Proof.
  intros Hl. destruct (l !! i) as [x | ] eqn:Hx; cbn.
  - rewrite Forall_lookup in Hl. exact (Hl _ _ Hx).
  - unfold in_uint. lia.
Qed.

Lemma ap_add_loop (m : nat) :
  (m <= n)%nat ->
  let st := for_range m (ap_add_step a b) (replicate n 0, 0) in
  length (fst st) = n /\
  (snd st = 0 \/ snd st = 1) /\
  (forall i, (i < n)%nat -> in_uint 64 (default 0 (fst st !! i))) /\
  words_value m (fst st) + snd st * 2 ^ (64 * Z.of_nat m) =
    words_value m (data a) + words_value m (data b).
Proof.
  induction m as [ | m IH]; intros Hm.
  - cbv zeta. unfold for_range. cbn [seq fold_left fst snd words_value].
    rewrite length_replicate.
    split; [reflexivity | split; [now left | split; [ | reflexivity]]].
    intros i Hi. rewrite lookup_replicate_2 by exact Hi.
    unfold in_uint. cbn. lia.
  - specialize (IH ltac:(lia)). cbv zeta in IH.
    destruct IH as (Hlen & Hc & Hrange & Hval).
    cbv zeta. rewrite for_range_S.
    destruct (for_range m (ap_add_step a b) (replicate n 0, 0)) as [out c].
    cbn [fst snd] in *. unfold ap_add_step.
    set (x := default 0 (data a !! m)) in *.
    set (y := default 0 (data b !! m)) in *.
    destruct (ap_add_word x y c) as [Hsum Hcarry].
    { apply word_range, a_words. }
    { apply word_range, b_words. }
    { exact Hc. }
    { pose proof (b_not_all_ones m ltac:(lia)). fold y in H.
      destruct Hc; subst c; lia. }
    cbv zeta in Hsum, Hcarry. cbn [fst snd].
    set (sum := to_uint64 (x + y + c)) in *.
    split; [now rewrite length_insert | ].
    split; [destruct (sum <? x); auto | ].
    split.
    + intros i Hi. destruct (Nat.eq_dec i m) as [-> | Hne].
      * rewrite list_lookup_insert_eq by lia. exact Hsum.
      * rewrite list_lookup_insert_ne by lia. now apply Hrange.
    + cbn [words_value]. rewrite words_value_insert_ge by lia.
      rewrite list_lookup_insert_eq by lia. cbn [default].
      rewrite pow64_succ. fold x y.
      set (P := 2 ^ (64 * Z.of_nat m)) in *.
      set (c' := if sum <? x then 1 else 0) in *.
      pose proof (f_equal (fun t => t * P) Hcarry) as HP. cbv beta in HP.
      unfold id. clearbody P c' sum x y. lia.
Qed.

End ApAdd.

(** X19.  [ap_add] adds two numbers of [n = ceil(max precision / 64)]
    words modulo [2^(64 n)], provided no word of the second operand is
    all ones: the result has [n] words of 64 bits and stands for the sum of
    the operands' [n] low words, the carry out of the top word being
    dropped; its precision is the larger of the two, its sign 0 and its
    reference count 1. *)
Theorem ap_add_adds (a b : ap_number_t) :
  0 <= precision a < 2 ^ 31 - 63 -> 0 <= precision b < 2 ^ 31 - 63 ->
  let n := Z.to_nat ((Z.max (precision a) (precision b) + 63) / 64) in
  (n <= length (data a))%nat -> (n <= length (data b))%nat ->
  Forall (in_uint 64) (data a) -> Forall (in_uint 64) (data b) ->
  (forall i, (i < n)%nat -> default 0 (data b !! i) < 2 ^ 64 - 1) ->
  let r := ap_add a b in
  precision r = Z.max (precision a) (precision b) /\
  sign r = 0 /\ ref_count r = 1 /\
  length (data r) = n /\
  Forall (in_uint 64) (data r) /\
  words_value n (data r) =
    (words_value n (data a) + words_value n (data b)) mod 2 ^ (64 * Z.of_nat n).
Proof.
  intros Hpa Hpb n Hla Hlb Ha Hb Hones r.
  set (p := Z.max (precision a) (precision b)) in *.
  assert (Hmax : (if precision a >? precision b then precision a
                  else precision b) = p).
  { unfold p. destruct (Z.gtb_spec (precision a) (precision b)); lia. }
  assert (Hp : 0 <= p < 2 ^ 31 - 63) by (unfold p; lia).
  change (2 ^ 31) with 2147483648 in *.
  assert (Hi1 : to_int32 p = p)
    by (apply to_int32_id; unfold in_int32, INT32_MIN, INT32_MAX; lia).
  assert (Hi2 : to_int32 (p + 63) = p + 63)
    by (apply to_int32_id; unfold in_int32, INT32_MIN, INT32_MAX; lia).
  assert (Hsize : Z.to_nat (Z.quot (p + 63) 64) = n).
  { unfold n. rewrite Z.quot_div_nonneg by lia. reflexivity. }
  assert (Hr : r =
    mk_ap_number (to_uint32 p) 0
      (fst (for_range n (ap_add_step a b) (replicate n 0, 0))) 1).
  { unfold r, ap_add. cbv zeta. rewrite Hmax, Hi1, Hi2, Hsize.
    destruct (for_range n (ap_add_step a b) (replicate n 0, 0)). reflexivity. }
  destruct (ap_add_loop a b n Ha Hb Hones n ltac:(lia))
    as (Hlen & Hc & Hrange & Hval).
  rewrite Hr. cbn [precision sign ref_count data].
  split.
  { unfold to_uint32. apply to_uint_id. change (2 ^ 32) with 4294967296. lia. }
  split; [reflexivity | split; [reflexivity | split; [exact Hlen | split]]].
  - apply Forall_lookup. intros i x Hx.
    pose proof (lookup_lt_Some _ _ _ Hx) as Hi. rewrite Hlen in Hi.
    specialize (Hrange i Hi). now rewrite Hx in Hrange.
  - rewrite <- Hval.
    pose proof (words_value_bound n _ (fun i Hi => Hrange i Hi)) as Hbound.
    symmetry. rewrite Z_mod_plus_full.
    apply Z.mod_small. exact Hbound.
Qed.

Lemma ap_add_adds_witness :
  let a := mk_ap_number 128 0 [2 ^ 64 - 1; 5] 1 in
  let b := mk_ap_number 128 0 [1; 7] 1 in
  data (ap_add a b) = [0; 13] /\
  words_value 2 (data (ap_add a b)) =
    (words_value 2 (data a) + words_value 2 (data b)) mod 2 ^ 128.
Proof.
  intros a b.
  assert (Hpa : 0 <= precision a < 2 ^ 31 - 63) by (cbn; lia).
  assert (Hpb : 0 <= precision b < 2 ^ 31 - 63) by (cbn; lia).
  assert (Ha : Forall (in_uint 64) (data a))
    by (repeat constructor; unfold in_uint; cbn; lia).
  assert (Hb : Forall (in_uint 64) (data b))
    by (repeat constructor; unfold in_uint; cbn; lia).
  assert (Hones : forall i, (i < 2)%nat -> default 0 (data b !! i) < 2 ^ 64 - 1).
  { intros i Hi. destruct i as [ | [ | i]]; cbn; lia. }
  pose proof (ap_add_adds a b Hpa Hpb (le_n 2) (le_n 2) Ha Hb Hones) as H.
  cbv zeta in H. destruct H as (_ & _ & _ & _ & _ & Hval).
  split; [reflexivity | exact Hval].
Defined.

(** Without the proviso the carry is lost: with a carry into a word of
    [b] that is all ones, the sum of the word wraps to the word of [a], the
    test [sum < a] fails, and the next word misses its carry. *)
Lemma ap_add_loses_carry :
  let a := mk_ap_number 192 0 [2 ^ 64 - 1; 5; 0] 1 in
  let b := mk_ap_number 192 0 [1; 2 ^ 64 - 1; 0] 1 in
  data (ap_add a b) = [0; 5; 0] /\
  (words_value 3 (data a) + words_value 3 (data b)) mod 2 ^ 192
    = words_value 3 [0; 5; 1].
Proof. split; vm_compute; reflexivity. Qed.

(** *** Block floating point *)

Lemma fill_bytes_spec (n : nat) (f : nat -> Z) (out : list Z) :
  length out = n -> fill_bytes n f out = map f (seq 0 n).
Proof.
  intros Hlen.
  assert (Hinv : forall m, (m <= n)%nat ->
    length (fill_bytes m f out) = n /\
    forall i, (i < m)%nat -> fill_bytes m f out !! i = Some (f i)).
  { induction m as [ | m IH]; intros Hm.
    - split; [exact Hlen | intros i Hi; lia].
    - destruct (IH ltac:(lia)) as [Hl Hdone].
      unfold fill_bytes in *. rewrite for_range_S.
      split; [now rewrite length_insert | ].
      intros i Hi. destruct (Nat.eq_dec i m) as [-> | Hne].
      + apply list_lookup_insert_eq. lia.
      + rewrite list_lookup_insert_ne by lia. apply Hdone. lia. }
  destruct (Hinv n ltac:(lia)) as [Hl Hdone].
  apply list_eq. intros i.
  change (map f (seq 0 n)) with (f <$> seq 0 n). rewrite list_lookup_fmap.
  destruct (Nat.lt_ge_cases i n) as [Hi | Hi].
  - rewrite Hdone, lookup_seq_lt by exact Hi. reflexivity.
  - rewrite lookup_seq_ge by exact Hi.
    apply lookup_ge_None_2. lia.
Qed.

Lemma to_int8_id x : -128 <= x <= 127 -> to_int 8 x = x.
Proof.
  unfold to_int, to_uint. change (2 ^ 8) with 256.
  change (2 ^ (8 - 1)) with 128. intros H.
  destruct (Z_le_gt_dec 0 x) as [Hx | Hx].
  - rewrite Z.mod_small by lia. destruct (Z.ltb_spec x 128); lia.
  - replace (x mod 256) with (x + 256).
    + destruct (Z.ltb_spec (x + 256) 128); lia.
    + apply Z.mod_unique with (q := -1); lia.
Qed.

Lemma lookup_map_seq (f : nat -> Z) (n i : nat) :
  (i < n)%nat -> map f (seq 0 n) !! i = Some (f i).
Proof.
  intros Hi. change (map f (seq 0 n)) with (f <$> seq 0 n).
  rewrite list_lookup_fmap, lookup_seq_lt by exact Hi. reflexivity.
Qed.

(** X20.  [bfp_add] returns the null pointer for blocks of different
    sizes (and when its allocation fails).  For well-formed blocks of one
    size whose exponents differ by at most 31 the result has the larger
    exponent, and mantissa [i] is the mantissa of the block with the larger
    exponent plus the other one shifted right by the difference of the
    exponents, modulo 256.  The operation is commutative in exponent and
    mantissas; only the precision is taken from the first operand. *)
Theorem bfp_add_commutes (raw1 raw2 a b : bfp_block_t) :
  (block_size a <> block_size b ->
     bfp_add (Some raw1) a b = None /\ bfp_add (Some raw2) b a = None) /\
  (bfp_add None a b = None) /\
  (block_size a = block_size b ->
   length (mantissas a) = Z.to_nat (block_size a) ->
   length (mantissas b) = Z.to_nat (block_size a) ->
   Forall (in_uint 8) (mantissas a) -> Forall (in_uint 8) (mantissas b) ->
   length (mantissas raw1) = Z.to_nat (block_size a) ->
   length (mantissas raw2) = Z.to_nat (block_size a) ->
   -128 <= exponent a <= 127 -> -128 <= exponent b <= 127 ->
   -31 <= exponent a - exponent b <= 31 ->
   exists r1 r2,
     bfp_add (Some raw1) a b = Some r1 /\
     bfp_add (Some raw2) b a = Some r2 /\
     exponent r1 = Z.max (exponent a) (exponent b) /\
     exponent r2 = exponent r1 /\
     mantissas r2 = mantissas r1 /\
     length (mantissas r1) = Z.to_nat (block_size a) /\
     block_size r1 = block_size a /\ block_size r2 = block_size a /\
     bfp_precision r1 = bfp_precision a /\
     bfp_precision r2 = bfp_precision b /\
     (forall i, (i < Z.to_nat (block_size a))%nat ->
        mantissas r1 !! i =
          Some (to_uint8
            (if exponent b <=? exponent a
             then default 0 (mantissas a !! i) +
                  Z.shiftr (default 0 (mantissas b !! i))
                           (exponent a - exponent b)
             else Z.shiftr (default 0 (mantissas a !! i))
                           (exponent b - exponent a) +
                  default 0 (mantissas b !! i))))).
Proof.
  split; [ | split].
  - intros Hne. unfold bfp_add.
    destruct (Z.eqb_spec (block_size a) (block_size b)); [contradiction | ].
    destruct (Z.eqb_spec (block_size b) (block_size a)); [congruence | ].
    split; reflexivity.
  - unfold bfp_add. destruct (negb _); reflexivity.
  - intros Hsz _ _ _ _ Hl1 Hl2 Hea Heb Hd. unfold bfp_add.
    rewrite <- Hsz, Z.eqb_refl. cbn [negb]. cbv zeta.
    rewrite !to_int8_id by lia.
    rewrite !fill_bytes_spec by assumption.
    destruct (Z.gtb_spec (exponent a - exponent b) 0) as [Hgt | Hle];
      [ | destruct (Z.ltb_spec (exponent a - exponent b) 0) as [Hlt | Hge] ].
    + destruct (Z.gtb_spec (exponent b - exponent a) 0); [lia | ].
      destruct (Z.ltb_spec (exponent b - exponent a) 0); [ | lia].
      do 2 eexists. split; [reflexivity | split; [reflexivity | ]].
      cbn [exponent mantissas block_size bfp_precision].
      rewrite length_map, length_seq.
      split; [lia | split; [reflexivity | split ]].
      { apply map_ext. intros i.
        replace (- (exponent b - exponent a)) with (exponent a - exponent b)
          by lia.
        f_equal. lia. }
      do 5 (split; [reflexivity | ]).
      intros i Hi. rewrite lookup_map_seq by exact Hi.
      destruct (Z.leb_spec (exponent b) (exponent a)); [reflexivity | lia].
    + destruct (Z.gtb_spec (exponent b - exponent a) 0); [ | lia].
      do 2 eexists. split; [reflexivity | split; [reflexivity | ]].
      cbn [exponent mantissas block_size bfp_precision].
      rewrite length_map, length_seq.
      split; [lia | split; [reflexivity | split ]].
      { apply map_ext. intros i.
        replace (- (exponent a - exponent b)) with (exponent b - exponent a)
          by lia.
        f_equal. lia. }
      do 5 (split; [reflexivity | ]).
      intros i Hi. rewrite lookup_map_seq by exact Hi.
      destruct (Z.leb_spec (exponent b) (exponent a)); [lia | ].
      replace (- (exponent a - exponent b)) with (exponent b - exponent a)
        by lia.
      reflexivity.
    + destruct (Z.gtb_spec (exponent b - exponent a) 0); [lia | ].
      destruct (Z.ltb_spec (exponent b - exponent a) 0); [lia | ].
      assert (He : exponent b = exponent a) by lia.
      do 2 eexists. split; [reflexivity | split; [reflexivity | ]].
      cbn [exponent mantissas block_size bfp_precision].
      rewrite length_map, length_seq.
      split; [lia | split; [exact He | split ]].
      { apply map_ext. intros i. f_equal. lia. }
      do 5 (split; [reflexivity | ]).
      intros i Hi. rewrite lookup_map_seq by exact Hi.
      rewrite He, Z.leb_refl, Z.sub_diag, Z.shiftr_0_r. reflexivity.
Qed.

Lemma bfp_add_commutes_witness :
  let a := mk_bfp_block 2 2 6 0 [64; 128] in
  let b := mk_bfp_block 0 2 6 0 [200; 4] in
  let raw := mk_bfp_block 0 0 0 0 [255; 255] in
  (mantissas <$> bfp_add (Some raw) a b) = Some [114; 129] /\
  (mantissas <$> bfp_add (Some raw) b a) = Some [114; 129].
Proof.
  intros a b raw.
  assert (Ha : Forall (in_uint 8) (mantissas a))
    by (repeat constructor; unfold in_uint; cbn; lia).
  assert (Hb : Forall (in_uint 8) (mantissas b))
    by (repeat constructor; unfold in_uint; cbn; lia).
  assert (Hea : -128 <= exponent a <= 127) by (cbn; lia).
  assert (Heb : -128 <= exponent b <= 127) by (cbn; lia).
  assert (Hd : -31 <= exponent a - exponent b <= 31) by (cbn; lia).
  destruct (bfp_add_commutes raw raw a b) as (_ & _ & Hcomm).
  destruct (Hcomm eq_refl eq_refl eq_refl Ha Hb eq_refl eq_refl Hea Heb Hd)
    as (r1 & r2 & H1 & H2 & _ & _ & Hm & _).
  rewrite H1, H2. cbn [fmap option_fmap option_map]. rewrite Hm.
  assert (E : mantissas r1 = [114; 129])
    by (vm_compute in H1; inversion H1; reflexivity).
  rewrite E. split; reflexivity.
Defined.

End AdvancedArithmeticFacts.
